(** * Path-pattern routing of the nixplay backend

    A shallow embedding of [backend/nixplay/pattern.go] (the pattern table and
    [dirPatterns.match]) and of the operations of [backend/nixplay/nixplay.go]
    that consult it ([List], [NewObject], [Put], [Mkdir], [Rmdir]).

    Go strings are byte sequences; they are modelled as [list ascii].  The
    regular expressions of the table only use ASCII literals, [.], and the
    negated class [[^/]]; their match boundaries always fall on ASCII bytes, so
    matching byte by byte agrees with Go's matching rune by rune. *)

From Stdlib Require Import Ascii String.
From Stdlib Require Import List Bool Arith Lia ZArith.
Import ListNotations.

Set Implicit Arguments.

(* ================================================================== *)
(** ** Strings *)

Definition str := list ascii.

(** String literals are written between [s[] and []]. *)
Notation "s[ x ]" := (list_ascii_of_string x) (at level 0, format "s[ x ]").

Definition slash : ascii := "/"%char.
Definition newline : ascii := "010"%char.

Definition str_eqb (a b : str) : bool :=
  if list_eq_dec ascii_dec a b then true else false.

Module Strings.

(** [strings.TrimLeft(s, "/")]: drop the leading separators. *)
Fixpoint TrimLeft (s : str) : str :=
  match s with
  | c :: s' => if Ascii.eqb c slash then TrimLeft s' else s
  | [] => []
  end.

(** [strings.TrimRight(s, "/")]: drop the trailing separators. *)
Definition TrimRight (s : str) : str := rev (TrimLeft (rev s)).

(** [strings.Trim(s, "/")]: both ends. *)
Definition Trim (s : str) : str := TrimRight (TrimLeft s).

End Strings.

(* ================================================================== *)
(** ** [path.Join] and [path.Clean] of the Go library

    [path.Clean] scans the bytes of its argument one path element at a time
    into an output buffer; [dotdot] marks how much of the buffer is a leading
    run of [..] elements that cannot be backed over.  The embedding works on
    the elements (the pieces between separators): the buffer is the list of
    the elements written so far, last one first, and [dotdot] counts
    elements. *)

Module Path.

(** The pieces of [s] between separators: [a], the empty piece and [b] for
    [a//b]. *)
Fixpoint split (s : str) : list str :=
  match s with
  | [] => [[]]
  | c :: s' =>
      if Ascii.eqb c slash then [] :: split s'
      else match split s' with
           | e :: es => (c :: e) :: es
           | [] => [[c]]
           end
  end.

Fixpoint joinElems (es : list str) : str :=
  match es with
  | [] => []
  | [e] => e
  | e :: es' => e ++ slash :: joinElems es'
  end.

Record lazybuf := { out : list str; dotdot : nat }.

(** One turn of the loop of [Clean], on the element [e]. *)
Definition cleanStep (rooted : bool) (b : lazybuf) (e : str) : lazybuf :=
  if str_eqb e [] then b                       (* empty path element *)
  else if str_eqb e s["."] then b              (* . element *)
  else if str_eqb e s[".."] then               (* .. element *)
    if dotdot b <? length (out b)
    then {| out := tl (out b); dotdot := dotdot b |}   (* can backtrack *)
    else if rooted then b
    else {| out := s[".."] :: out b; dotdot := S (length (out b)) |}
  else {| out := e :: out b; dotdot := dotdot b |}.    (* real path element *)

Definition Clean (path : str) : str :=
  match path with
  | [] => s["."]
  | c :: _ =>
      let rooted := Ascii.eqb c slash in
      let b := fold_left (cleanStep rooted) (split path) {| out := []; dotdot := 0 |} in
      let body := joinElems (rev (out b)) in
      if rooted then slash :: body
      else match body with [] => s["."] | _ => body end
  end.

(** The buffer that [Join] fills before cleaning: the non-empty elements,
    separated by [/]; an empty element is still appended (after a
    separator) once the buffer is non-empty. *)
Fixpoint joinBuf (buf : str) (elem : list str) : str :=
  match elem with
  | [] => buf
  | e :: elem' =>
      match buf, e with
      | [], [] => joinBuf buf elem'
      | [], _ => joinBuf e elem'
      | _, _ => joinBuf (buf ++ slash :: e) elem'
      end
  end.

Definition Join (elem : list str) : str :=
  if fold_left (fun n e => n + length e) elem 0 =? 0 then []
  else Clean (joinBuf [] elem).

End Path.

(* ================================================================== *)
(** ** The fragment of Go's [regexp] that the table uses

    Go's [regexp] returns the leftmost match, and among the matches at that
    place the one a backtracking search finds first.  The embedding is that
    backtracking search, over the instruction sequence of the expression.
    Under the default (Perl) flags [^] and [$] match at the two ends of the
    text only, [.] matches any character but a newline, and a negated class
    matches a newline unless it lists it. *)

Module Regexp.

Inductive charClass :=
| ClsLit (c : ascii)                 (* a literal character *)
| ClsAnyNotNL                        (* . *)
| ClsSet (neg : bool) (cs : list ascii).  (* [...] and [^...] *)

Definition classMatches (c : charClass) (a : ascii) : bool :=
  match c with
  | ClsLit b => Ascii.eqb a b
  | ClsAnyNotNL => negb (Ascii.eqb a newline)
  | ClsSet neg cs => xorb neg (existsb (Ascii.eqb a) cs)
  end.

Inductive inst :=
| InstBeginText                      (* ^ *)
| InstEndText                        (* $ *)
| InstCapture (n : nat)              (* record the position in slot n *)
| InstRune (c : charClass)           (* one character *)
| InstPlus (c : charClass) (greedy : bool).   (* c+ and c+? *)

Record Regexp := { prog : list inst; numSubexp : nat }.

(** *** Parsing *)

Inductive token :=
| TBegin | TEnd | TOpen | TClose | TPlus | TQuest
| TAtom (c : charClass).

Inductive lexMode :=
| Normal
| ClassStart
| InClass (neg : bool) (acc : list ascii).

Definition isMeta (a : ascii) : bool :=
  existsb (Ascii.eqb a) s["\.+*?()|[]{}^$"].

(** Inside brackets: the characters with a meaning of their own there. *)
Definition classSpecial (a : ascii) : bool :=
  existsb (Ascii.eqb a) s["\-[]^"].

(** Anything outside the fragment is refused. *)
Fixpoint lex (m : lexMode) (s : str) : option (list token) :=
  match m, s with
  | Normal, [] => Some []
  | Normal, c :: s' =>
      if Ascii.eqb c "["%char then lex ClassStart s'
      else
        let tok :=
          if Ascii.eqb c "^"%char then Some TBegin
          else if Ascii.eqb c "$"%char then Some TEnd
          else if Ascii.eqb c "("%char then Some TOpen
          else if Ascii.eqb c ")"%char then Some TClose
          else if Ascii.eqb c "+"%char then Some TPlus
          else if Ascii.eqb c "?"%char then Some TQuest
          else if Ascii.eqb c "."%char then Some (TAtom ClsAnyNotNL)
          else if isMeta c then None
          else Some (TAtom (ClsLit c)) in
        match tok, lex Normal s' with
        | Some t, Some ts => Some (t :: ts)
        | _, _ => None
        end
  | ClassStart, c :: s' =>
      if Ascii.eqb c "^"%char then lex (InClass true []) s'
      else if classSpecial c then None
      else lex (InClass false [c]) s'
  | InClass neg acc, c :: s' =>
      if Ascii.eqb c "]"%char then
        match acc, lex Normal s' with
        | _ :: _, Some ts => Some (TAtom (ClsSet neg (rev acc)) :: ts)
        | _, _ => None
        end
      else if classSpecial c then None
      else lex (InClass neg (c :: acc)) s'
  | _, [] => None
  end.

(** [next] is the number of the next group, [opened] the groups not yet
    closed, innermost first. *)
Fixpoint build (ts : list token) (next : nat) (opened : list nat)
  : option (list inst * nat) :=
  let cons i r :=
    match r with Some (p, n) => Some (i :: p, n) | None => None end in
  match ts with
  | [] => match opened with [] => Some ([], next - 1) | _ => None end
  | TAtom c :: TPlus :: TQuest :: r => cons (InstPlus c false) (build r next opened)
  | TAtom c :: TPlus :: r => cons (InstPlus c true) (build r next opened)
  | TAtom c :: r => cons (InstRune c) (build r next opened)
  | TBegin :: r => cons InstBeginText (build r next opened)
  | TEnd :: r => cons InstEndText (build r next opened)
  | TOpen :: r => cons (InstCapture (2 * next)) (build r (S next) (next :: opened))
  | TClose :: r =>
      match opened with
      | g :: opened' => cons (InstCapture (2 * g + 1)) (build r next opened')
      | [] => None
      end
  | TPlus :: _ | TQuest :: _ => None
  end.

(** [regexp.Compile], on the fragment above: anchors, groups, literal
    characters, [.], bracket classes of plain characters, and [+] and [+?]
    on a single character or class.  The seven expressions of the table are
    in it.  [None] is an expression that is not: one that Go refuses, or one
    that Go compiles with constructs the fragment does not have (star,
    option, alternation, ranges, escapes, repetition of a group). *)
Definition Compile (re : str) : option Regexp :=
  match lex Normal re with
  | Some ts =>
      match build ts 1 [] with
      | Some (p, n) => Some {| prog := p; numSubexp := n |}
      | None => None
      end
  | None => None
  end.

(** *** Matching *)

(** Capture slots: slot [2k] is where group [k] starts, slot [2k+1] where it
    ends; [None] is Go's [-1]. *)
Definition caps := list (option nat).

Fixpoint setCap (c : caps) (i v : nat) : caps :=
  match c, i with
  | [], _ => []
  | _ :: t, 0 => Some v :: t
  | h :: t, S i' => h :: setCap t i' v
  end.

Definition cont := str -> nat -> caps -> option caps.

(** One or more characters of class [c], then [k]: the greedy loop tries
    to take more first, the lazy one tries [k] first. *)
Fixpoint plusLoop (k : cont) (c : charClass) (greedy : bool)
         (s : str) (pos : nat) (cap : caps) : option caps :=
  match s with
  | [] => None
  | a :: s' =>
      if classMatches c a then
        if greedy then
          match plusLoop k c greedy s' (S pos) cap with
          | Some r => Some r
          | None => k s' (S pos) cap
          end
        else
          match k s' (S pos) cap with
          | Some r => Some r
          | None => plusLoop k c greedy s' (S pos) cap
          end
      else None
  end.

(** Run [p] on the rest [s] of the text, which starts at offset [pos]. *)
Fixpoint run (p : list inst) : cont :=
  match p with
  | [] => fun s pos cap => Some (setCap cap 1 pos)
  | i :: rest =>
      match i with
      | InstBeginText => fun s pos cap =>
          if pos =? 0 then run rest s pos cap else None
      | InstEndText => fun s pos cap =>
          match s with [] => run rest s pos cap | _ :: _ => None end
      | InstCapture n => fun s pos cap => run rest s pos (setCap cap n pos)
      | InstRune c => fun s pos cap =>
          match s with
          | a :: s' => if classMatches c a then run rest s' (S pos) cap else None
          | [] => None
          end
      | InstPlus c greedy => plusLoop (run rest) c greedy
      end
  end.

(** The leftmost start that matches. *)
Fixpoint search (p : list inst) (s : str) (pos : nat) (cap : caps) : option caps :=
  match run p s pos (setCap cap 0 pos) with
  | Some r => Some r
  | None =>
      match s with
      | [] => None
      | _ :: s' => search p s' (S pos) cap
      end
  end.

(** [s[a:b]] *)
Definition slice (a b : nat) (s : str) : str := firstn (b - a) (skipn a s).

Definition group (s : str) (cap : caps) (k : nat) : str :=
  match nth (2 * k) cap None, nth (2 * k + 1) cap None with
  | Some a, Some b => slice a b s
  | _, _ => []
  end.

(** [Regexp.FindStringSubmatch]: [None] is the nil slice; otherwise the
    text of the whole match followed by the text of each group. *)
Definition FindStringSubmatch (re : Regexp) (s : str) : option (list str) :=
  match search (prog re) s 0 (repeat None (2 * (1 + numSubexp re))) with
  | None => None
  | Some cap => Some (map (group s cap) (seq 0 (1 + numSubexp re)))
  end.

End Regexp.

(* ================================================================== *)
(** ** The data model of [pattern.go] *)

Definition Time := Z.

(** [nixplaytypes.ContainerType] *)
Inductive ContainerType := AlbumContainerType | PlaylistContainerType.

Inductive error :=
| ErrorDirNotFound                     (* fs.ErrorDirNotFound *)
| ErrorObjectNotFound                  (* fs.ErrorObjectNotFound *)
| errCantUpload                        (* can't upload files here *)
| errCantRmdir                         (* can't remove this directory *)
| errCantMkdir                         (* can't make directories here *)
| ClientError (code : nat)             (* an error of the remote service *)
| Errorf (msg : string) (wrapped : error).   (* fmt.Errorf("msg: %w", err) *)

(** What a call yields: a value, an error, or a run-time panic. *)
Inductive result (A : Type) :=
| Ok (a : A)
| Err (e : error)
| Panic.
Arguments Ok {A} a.
Arguments Err {A} e.
Arguments Panic {A}.

(** An entry of [fs.DirEntries].  The entry types are declared outside the
    two files embedded here, so an entry is represented by the call that made
    it: [NewDir remote modTime] is the result of [fs.NewDir(remote, modTime)],
    [ListedEntry remote] an entry that a lister built from the answers of the
    remote service. *)
Inductive DirEntry :=
| NewDir (remote : str) (modTime : Time)
| ListedEntry (remote : str).

Definition DirEntries := list DirEntry.

(** The interface [lister] (the context argument carries nothing the
    routing reads and is left out throughout). *)
Record lister := {
  listContainers : str -> ContainerType -> result DirEntries;
  listPhotos : str -> ContainerType -> str -> result DirEntries;
  dirTime : Time
}.

(** [dirPattern]; the field [match] is [match_re] here, [None] being the nil
    pointer it holds before [mustCompile]; a nil [toEntries] is [None]. *)
Record dirPattern := {
  re : string;
  match_re : option Regexp.Regexp;
  canUpload : bool;
  canMkdir : bool;
  isFile : bool;
  toEntries : option (lister -> str -> list str -> result DirEntries)
}.

Definition dirPatterns := list dirPattern.

(** [match[i]], which panics out of range. *)
Definition index {A : Type} (m : list str) (i : nat) (k : str -> result A)
  : result A :=
  match nth_error m i with
  | Some x => k x
  | None => Panic
  end.

(** The table as the composite literal writes it, before [mustCompile]. *)
Definition patternsLiteral : dirPatterns := [
  {| re := "^$";
     match_re := None; canUpload := false; canMkdir := false; isFile := false;
     toEntries := Some (fun f prefix _ =>
       Ok [ NewDir (prefix ++ s["album"]) (dirTime f);
            NewDir (prefix ++ s["playlist"]) (dirTime f) ]) |};
  {| re := "^album$";
     match_re := None; canUpload := false; canMkdir := false; isFile := false;
     toEntries := Some (fun f prefix _ =>
       listContainers f prefix AlbumContainerType) |};
  {| re := "^album/(.+)$";
     match_re := None; canUpload := false; canMkdir := true; isFile := false;
     toEntries := Some (fun f prefix m =>
       index m 1 (listPhotos f prefix AlbumContainerType)) |};
  {| re := "^album/(.+?)/([^/]+)$";
     match_re := None; canUpload := true; canMkdir := false; isFile := true;
     toEntries := None |};
  {| re := "^playlist$";
     match_re := None; canUpload := false; canMkdir := false; isFile := false;
     toEntries := Some (fun f prefix _ =>
       listContainers f prefix PlaylistContainerType) |};
  {| re := "^playlist/(.+)$";
     match_re := None; canUpload := false; canMkdir := true; isFile := false;
     toEntries := Some (fun f prefix m =>
       index m 1 (listPhotos f prefix PlaylistContainerType)) |};
  {| re := "^playlist/(.+?)/([^/]+)$";
     match_re := None; canUpload := true; canMkdir := false; isFile := true;
     toEntries := None |}
].

(** The three results of [dirPatterns.match]: the slice expression panics;
    or the loop ends and nil, the empty prefix and nil are returned; or a
    rule matched and the captures, the prefix and the rule are returned. *)
Inductive matchResult :=
| MatchPanic
| NoMatch
| Matched (m : list str) (prefix : str) (pattern : dirPattern).

Module DirPatterns.

(** [mustCompile] compiles the expression of every rule.  [None] is a table
    with an expression that [Regexp.Compile] does not take; on the table of
    this package every expression compiles. *)
Fixpoint mustCompile (ds : dirPatterns) : option dirPatterns :=
  match ds with
  | [] => Some []
  | pattern :: ds' =>
      match Regexp.Compile (list_ascii_of_string (re pattern)), mustCompile ds' with
      | Some r, Some cs =>
          Some ({| re := re pattern;
                   match_re := Some r;
                   canUpload := canUpload pattern;
                   canMkdir := canMkdir pattern;
                   isFile := isFile pattern;
                   toEntries := toEntries pattern |} :: cs)
      | _, _ => None
      end
  end.

(** The loop of [match] over the rules, in order. *)
Fixpoint matchLoop (ds : dirPatterns) (absPath prefix : str) (wantFile : bool)
  : matchResult :=
  match ds with
  | [] => NoMatch
  | pattern :: ds' =>
      if negb (Bool.eqb (isFile pattern) wantFile)
      then matchLoop ds' absPath prefix wantFile
      else
        match match_re pattern with
        | None => MatchPanic                 (* nil pointer *)
        | Some r =>
            match Regexp.FindStringSubmatch r absPath with
            | Some m => Matched m prefix pattern
            | None => matchLoop ds' absPath prefix wantFile
            end
        end
  end.

(** The joined path that [match] works on. *)
Definition absPathOf (root itemPath : str) : str :=
  Path.Join [root; Strings.Trim itemPath].

(** [prefix] after the slice expression [absPath[len(root):]] succeeded. *)
Definition prefixOf (root absPath : str) : str :=
  let prefix := Strings.Trim (skipn (length root) absPath) in
  match prefix with
  | [] => prefix
  | _ :: _ => prefix ++ [slash]
  end.

(** [ds.match(root, itemPath, isFile)] *)
Definition match_ (ds : dirPatterns) (root itemPath : str) (wantFile : bool)
  : matchResult :=
  let absPath := absPathOf root itemPath in
  if length absPath <? length root then MatchPanic   (* slice out of range *)
  else matchLoop ds absPath (prefixOf root absPath) wantFile.

End DirPatterns.

(** The package variable [patterns]. *)
Definition patterns : dirPatterns :=
  match DirPatterns.mustCompile patternsLiteral with
  | Some ds => ds
  | None => []
  end.

(* ================================================================== *)
(** ** The operations of [nixplay.go] that consult the table *)

Section Backend.

(** The remote service ([nixplayapi.Client] and the containers and photos
    it hands out) is outside the backend; within one operation it is seen
    through the answers it gives.  A nil container or photo is [None]. *)
Variables apiContainer apiPhoto Reader : Type.

(** [pattern.containerType], the collection kind the operations read off
    the matched rule. *)
Variable containerType : dirPattern -> ContainerType.

Record AddPhotoOptions := { FileSize : Z; MIMEType : str }.

Record Client := {
  ContainerWithUniqueName : ContainerType -> str -> result (option apiContainer);
  CreateContainer : ContainerType -> str -> result apiContainer;
  PhotoWithUniqueName : apiContainer -> str -> result (option apiPhoto);
  AddPhoto : apiContainer -> str -> Reader -> AddPhotoOptions -> result apiPhoto;
  Delete : apiContainer -> result unit
}.

Record Fs := {
  name : str;
  root : str;
  startTime : Time;
  nixplayClient : Client;
  (* the bodies of listContainers and listPhotos only talk to the client *)
  fsListContainers : str -> ContainerType -> result DirEntries;
  fsListPhotos : str -> ContainerType -> str -> result DirEntries
}.

(** The storage object [Photo]. *)
Record Photo := { parent : apiContainer; photo : apiPhoto }.

(** [fs.ObjectInfo], as far as [Put] reads it; [srcMimeType] is [None] when
    the source is no [fs.MimeTyper]. *)
Record ObjectInfo := { Remote : str; Size : Z; srcMimeType : option str }.

(** [Fs] as a [lister]. *)
Definition asLister (f : Fs) : lister :=
  {| listContainers := fsListContainers f;
     listPhotos := fsListPhotos f;
     dirTime := startTime f |}.

Definition List (f : Fs) (dir : str) : result DirEntries :=
  match DirPatterns.match_ patterns (root f) dir false with
  | MatchPanic => Panic
  | NoMatch => Err ErrorDirNotFound
  | Matched m prefix pattern =>
      if isFile pattern then Err ErrorDirNotFound
      else match toEntries pattern with
           | Some produce => produce (asLister f) prefix m
           | None => Err ErrorDirNotFound
           end
  end.

Definition NewObject (f : Fs) (remote : str) : result Photo :=
  match DirPatterns.match_ patterns (root f) remote true with
  | MatchPanic => Panic
  | NoMatch => Err ErrorObjectNotFound
  | Matched m _ pattern =>
      index m 1 (fun containerName =>
      index m 2 (fun photoName =>
      match ContainerWithUniqueName (nixplayClient f)
              (containerType pattern) containerName with
      | Panic => Panic
      | Err e => Err (Errorf "failed to get container" e)
      | Ok None => Err ErrorObjectNotFound
      | Ok (Some c) =>
          match PhotoWithUniqueName (nixplayClient f) c photoName with
          | Panic => Panic
          | Err e => Err (Errorf "failed to get photos" e)
          | Ok None => Err ErrorObjectNotFound
          | Ok (Some p) => Ok {| parent := c; photo := p |}
          end
      end))
  end.

Definition Put (f : Fs) (input : Reader) (src : ObjectInfo) : result Photo :=
  let refuse := Err errCantUpload in
  match DirPatterns.match_ patterns (root f) (Remote src) true with
  | MatchPanic => Panic
  | NoMatch => refuse
  | Matched m _ pattern =>
      if negb (isFile pattern) || negb (canUpload pattern) then refuse
      else
      index m 1 (fun containerName =>
      index m 2 (fun fileName =>
      match ContainerWithUniqueName (nixplayClient f)
              (containerType pattern) containerName with
      | Panic => Panic
      | Err e => Err (Errorf "failed to get container to upload photo into" e)
      | Ok None => Panic                   (* method call on a nil container *)
      | Ok (Some c) =>
          let opts := {| FileSize := Size src;
                         MIMEType := match srcMimeType src with
                                     | Some t => t
                                     | None => []
                                     end |} in
          match AddPhoto (nixplayClient f) c fileName input opts with
          | Panic => Panic
          | Err e => Err (Errorf "failed to add photo" e)
          | Ok p => Ok {| parent := c; photo := p |}
          end
      end))
  end.

Definition Mkdir (f : Fs) (dir : str) : result unit :=
  match DirPatterns.match_ patterns (root f) dir false with
  | MatchPanic => Panic
  | NoMatch => Err ErrorDirNotFound
  | Matched m _ pattern =>
      if negb (canMkdir pattern) then Err errCantMkdir
      else
      index m 1 (fun containerName =>
      match CreateContainer (nixplayClient f)
              (containerType pattern) containerName with
      | Panic => Panic
      | Err e => Err e
      | Ok _ => Ok tt
      end)
  end.

Definition Rmdir (f : Fs) (dir : str) : result unit :=
  match DirPatterns.match_ patterns (root f) dir false with
  | MatchPanic => Panic
  | NoMatch => Err ErrorDirNotFound
  | Matched m _ pattern =>
      if negb (canMkdir pattern) then Err errCantRmdir
      else
      index m 1 (fun containerName =>
      match ContainerWithUniqueName (nixplayClient f)
              (containerType pattern) containerName with
      | Panic => Panic
      | Err e => Err e
      | Ok None => Err ErrorDirNotFound
      | Ok (Some c) => Delete (nixplayClient f) c
      end)
  end.

End Backend.

(* ================================================================== *)
(** ** Vocabulary of the statements *)

Section Vocabulary.

Import Regexp.

(** The last character, if any. *)
Definition last_error (s : str) : option ascii := hd_error (rev s).

Definition notSlash : charClass := ClsSet true [slash].

(** What follows the lazy group in the item expressions: [)/([^/]+)$]. *)
Definition itemTail : list inst :=
  [InstCapture 3; InstRune (ClsLit slash); InstCapture 4;
   InstPlus notSlash true; InstCapture 5; InstEndText].

(** The name of a collection kind, as the table spells it. *)
Definition kindName (t : ContainerType) : str :=
  match t with
  | AlbumContainerType => s["album"]
  | PlaylistContainerType => s["playlist"]
  end.

(** Where the rules of a kind sit in the table. *)
Definition kindRootIndex (t : ContainerType) : nat :=
  match t with AlbumContainerType => 1 | PlaylistContainerType => 4 end.
Definition collectionIndex (t : ContainerType) : nat :=
  match t with AlbumContainerType => 2 | PlaylistContainerType => 5 end.
Definition itemIndex (t : ContainerType) : nat :=
  match t with AlbumContainerType => 3 | PlaylistContainerType => 6 end.

Definition literal (l : str) : list inst :=
  map (fun c => InstRune (ClsLit c)) l.

(** The compiled item expression of a kind: [^kind/(.+?)/([^/]+)$]. *)
Definition itemProg (t : ContainerType) : list inst :=
  InstBeginText :: literal (kindName t ++ [slash])
    ++ InstCapture 2 :: InstPlus ClsAnyNotNL false :: itemTail.

Definition noNewline (s : str) : bool := forallb (classMatches ClsAnyNotNL) s.
Definition noSlash (s : str) : bool := forallb (classMatches notSlash) s.

(** The text of the captures of rule [p] on [absPath], if it matches. *)
Definition submatch (p : dirPattern) (absPath : str) : option (list str) :=
  match match_re p with
  | Some r => FindStringSubmatch r absPath
  | None => None
  end.

Definition ruleMatches (p : dirPattern) (absPath : str) : bool :=
  match submatch p absPath with Some _ => true | None => false end.

(** The literal characters a program starts with, and what follows them. *)
Fixpoint stripLiteral (p : list inst) : str * list inst :=
  match p with
  | InstRune (ClsLit c) :: p' =>
      let (l, rest) := stripLiteral p' in (c :: l, rest)
  | _ => ([], p)
  end.

Definition compiled (ds : dirPatterns) : Prop :=
  Forall (fun p => match_re p <> None) ds.

(** A backend on a service that answers nothing, for trying the operations
    on concrete requests. *)
Definition silentClient : Client unit unit unit :=
  {| ContainerWithUniqueName := fun _ _ => Err (ClientError 0);
     CreateContainer := fun _ _ => Err (ClientError 0);
     PhotoWithUniqueName := fun _ _ => Err (ClientError 0);
     AddPhoto := fun _ _ _ _ => Err (ClientError 0);
     Delete := fun _ => Err (ClientError 0) |}.

Definition silentFs (root : str) : Fs unit unit unit :=
  {| name := s["nixplay"];
     root := root;
     startTime := 0%Z;
     nixplayClient := silentClient;
     fsListContainers := fun _ _ => Err (ClientError 0);
     fsListPhotos := fun _ _ _ => Err (ClientError 0) |}.

Definition kindOfRule (p : dirPattern) : ContainerType :=
  if String.prefix "^album" (re p) then AlbumContainerType
  else PlaylistContainerType.

End Vocabulary.

(* ================================================================== *)
(** ** More of the Go library and of [nixplay.go] *)

(** [path.Split]: the path up to and with its last separator, and what
    follows it; without separator the first part is empty. *)
Fixpoint pathSplit (path : str) : str * str :=
  match path with
  | [] => ([], [])
  | c :: path' =>
      let (dir, file) := pathSplit path' in
      if Ascii.eqb c slash then (c :: dir, file)
      else match dir with
           | [] => ([], c :: file)
           | _ :: _ => (c :: dir, file)
           end
  end.

(** The root that [NewFs] keeps: cleaned, without separators at its ends,
    and empty for the current directory. *)
Definition normalizeRoot (root : str) : str :=
  let root := Strings.Trim (Path.Clean root) in
  if str_eqb root s["."] || str_eqb root s["/"] then [] else root.

(** A path element that [path.Clean] keeps where it stands. *)
Definition realElem (e : str) : bool :=
  negb (str_eqb e []) && negb (str_eqb e s["."]) && negb (str_eqb e s[".."])
  && forallb (fun c => negb (Ascii.eqb c slash)) e.

(** The elements of a cleaned relative path: parent steps first, then real
    elements. *)
Fixpoint cleanElems (es : list str) : bool :=
  match es with
  | [] => true
  | e :: es' =>
      if str_eqb e s[".."] then cleanElems es'
      else forallb realElem es
  end.

(** The roots [NewFs] can leave in an [Fs]. *)
Definition normalRoot (root : str) : Prop :=
  exists es, cleanElems es = true /\ root = Path.joinElems es.


(** The compiled collection expression of a kind: [^kind/(.+)$]. *)
Definition collectionProg (t : ContainerType) : list Regexp.inst :=
  Regexp.InstBeginText :: literal (kindName t ++ [slash])
    ++ [Regexp.InstCapture 2; Regexp.InstPlus Regexp.ClsAnyNotNL true;
        Regexp.InstCapture 3; Regexp.InstEndText].

(** [strings.CutPrefix]: what is left of [s] after the prefix [pre]. *)
Fixpoint stripPrefix (pre s : str) : option str :=
  match pre, s with
  | [], _ => Some s
  | a :: pre', b :: s' => if Ascii.eqb a b then stripPrefix pre' s' else None
  | _ :: _, [] => None
  end.

(** The layout of the table, read without regular expressions: the index of
    the rule for a joined path and the captures, for one kind. *)
Definition routeKind (t : ContainerType) (wantFile : bool) (absPath : str)
  : option (nat * list str) :=
  match stripPrefix (kindName t) absPath with
  | None => None
  | Some [] => if wantFile then None else Some (kindRootIndex t, [absPath])
  | Some (c :: rest) =>
      if negb (Ascii.eqb c slash) then None
      else if wantFile then
        let (dir, file) := pathSplit rest in
        let mid := removelast dir in
        match mid, file with
        | _ :: _, _ :: _ =>
            if noNewline mid then Some (itemIndex t, [absPath; mid; file])
            else None
        | _, _ => None
        end
      else
        match rest with
        | _ :: _ =>
            if noNewline rest then Some (collectionIndex t, [absPath; rest])
            else None
        | [] => None
        end
  end.

Definition route (wantFile : bool) (absPath : str) : option (nat * list str) :=
  match absPath with
  | [] => if wantFile then None else Some (0, [[]])
  | _ :: _ =>
      match routeKind AlbumContainerType wantFile absPath with
      | Some r => Some r
      | None => routeKind PlaylistContainerType wantFile absPath
      end
  end.

(** The paths of the layout: [routed w absPath i m] when [absPath] is, in
    style [w], the path of rule [i] with the captures [m]. *)
Inductive routed : bool -> str -> nat -> list str -> Prop :=
| RootPath : routed false [] 0 [[]]
| KindPath t : routed false (kindName t) (kindRootIndex t) [kindName t]
| CollectionPath t name :
    name <> [] -> noNewline name = true ->
    routed false (kindName t ++ slash :: name) (collectionIndex t)
           [kindName t ++ slash :: name; name]
| ItemPath t mid last :
    mid <> [] -> noNewline mid = true -> last <> [] -> noSlash last = true ->
    routed true (kindName t ++ slash :: mid ++ slash :: last) (itemIndex t)
           [kindName t ++ slash :: mid ++ slash :: last; mid; last].

(** [NewFs], from the configuration steps on.  The configuration mapper,
    [obscure.Reveal], the constructor of the client and the clock are outside
    the backend and are taken as they answer; the features of the [Fs] are
    not part of its record here. *)
Section Construction.

Variables apiContainer apiPhoto Reader : Type.
Variable containerType : dirPattern -> ContainerType.
Variable Mapper : Type.

(** [Options] *)
Record Options := { UserName : str; Password : str }.

(** [nixplaytypes.Authorization] *)
Record Authorization := { Username : str; AuthPassword : str }.

Variable configSet : Mapper -> result Options.
Variable Reveal : str -> result str.
Variable NewDefaultClient :
  Authorization -> result (Client apiContainer apiPhoto Reader).
Variable now : Time.
Variable listContainersWith :
  Client apiContainer apiPhoto Reader -> Time -> str -> ContainerType
  -> result DirEntries.
Variable listPhotosWith :
  Client apiContainer apiPhoto Reader -> Time -> str -> ContainerType -> str
  -> result DirEntries.

Definition mkFs (name root : str) (client : Client apiContainer apiPhoto Reader)
  : Fs apiContainer apiPhoto Reader :=
  {| name := name;
     root := root;
     startTime := now;
     nixplayClient := client;
     fsListContainers := listContainersWith client now;
     fsListPhotos := listPhotosWith client now |}.

(** What [NewFs] returns: an error and no [Fs]; an [Fs] and no error; or an
    [Fs] together with [fs.ErrorIsFile]. *)
Inductive newFsResult :=
| NewFsError (e : error)
| NewFsOk (f : Fs apiContainer apiPhoto Reader)
| NewFsIsFile (f : Fs apiContainer apiPhoto Reader)
| NewFsPanic.

Definition NewFs (name root : str) (m : Mapper) : newFsResult :=
  match configSet m with
  | Panic => NewFsPanic
  | Err e => NewFsError e
  | Ok opt =>
      let root := normalizeRoot root in
      match Reveal (Password opt) with
      | Panic => NewFsPanic
      | Err e => NewFsError e
      | Ok password =>
          match NewDefaultClient {| Username := UserName opt;
                                    AuthPassword := password |} with
          | Panic => NewFsPanic
          | Err e => NewFsError (Errorf "failed to create nixplay client" e)
          | Ok nixplayClient =>
              let f := mkFs name root nixplayClient in
              match DirPatterns.match_ patterns root [] true with
              | MatchPanic => NewFsPanic
              | NoMatch => NewFsOk f
              | Matched _ _ pattern =>
                  if isFile pattern then
                    let (dir, leaf) := pathSplit root in
                    let f' := mkFs name (Strings.TrimRight dir) nixplayClient in
                    match NewObject containerType f' leaf with
                    | Ok _ => NewFsIsFile f'
                    | Err _ => NewFsOk f
                    | Panic => NewFsPanic
                    end
                  else NewFsOk f
              end
          end
      end
  end.

End Construction.

Arguments NewFsError {apiContainer apiPhoto Reader} e.
Arguments NewFsPanic {apiContainer apiPhoto Reader}.

(** A backend on a service that has every container and photo asked for,
    for trying the operations on concrete requests. *)
Definition probeClient : Client (ContainerType * str) str unit :=
  {| ContainerWithUniqueName := fun t n => Ok (Some (t, n));
     CreateContainer := fun t n => Ok (t, n);
     PhotoWithUniqueName := fun _ n => Ok (Some n);
     AddPhoto := fun _ n _ _ => Ok n;
     Delete := fun _ => Ok tt |}.

Definition probeFs (root : str) : Fs (ContainerType * str) str unit :=
  {| name := s["nixplay"];
     root := root;
     startTime := 0%Z;
     nixplayClient := probeClient;
     fsListContainers := fun prefix t => Ok [ListedEntry (prefix ++ kindName t)];
     fsListPhotos := fun prefix _ dir => Ok [ListedEntry (prefix ++ dir)] |}.

(** [Photo.String] and [Photo.Remote].  The name of a container type as a
    string, and the names the service gives for the parent and the photo,
    come from outside the backend.  So do two functions [Remote] calls:

    - [filepath.Join], which joins with the separator of the platform and
      is taken as [filepathJoin];
    - [fs.Debugf], which writes nothing unless the log level is debug
      ([logsDebug]) and then formats the object it is given with its
      [String] method, which for a photo is [Remote] again.

    A failed lookup of a name is reported with [fs.Debugf] before the empty
    string is returned, so [Remote] can call itself: [fuel] bounds the depth
    of these calls, and [None] is a run that needs more than [fuel]. *)
Section RemoteName.

Variables apiContainer apiPhoto : Type.
Variable ContainerTypeOf : apiContainer -> ContainerType.
Variable containerTypeString : ContainerType -> str.
Variable ContainerName : apiContainer -> result str.
Variable NameUnique : apiPhoto -> result str.
Variable filepathJoin : list str -> str.
Variable logsDebug : bool.

(** [fs.Debugf(o, ...)] followed by [rest]; [objectString] is the run of
    [o.String()], made only when the message is written. *)
Definition Debugf (objectString : option (result str)) (rest : result str)
  : option (result str) :=
  if logsDebug then
    match objectString with
    | None => None
    | Some Panic => Some Panic
    | Some _ => Some rest
    end
  else Some rest.

Fixpoint PhotoRemote (fuel : nat) (o : Photo apiContainer apiPhoto)
  : option (result str) :=
  match fuel with
  | 0 => None
  | S fuel' =>
      (* o.String(): a nil photo is None *)
      let String (o' : option (Photo apiContainer apiPhoto)) :=
        match o' with
        | None => Some (Ok s["<nil>"])
        | Some o' => PhotoRemote fuel' o'
        end in
      let containerType := ContainerTypeOf (parent o) in
      match ContainerName (parent o) with
      | Panic => Some Panic
      | Err _ => Debugf (String (Some o)) (Ok [])
      | Ok parentName =>
          match NameUnique (photo o) with
          | Panic => Some Panic
          | Err _ => Debugf (String (Some o)) (Ok [])
          | Ok name =>
              Some (Ok (filepathJoin
                          [containerTypeString containerType; parentName; name]))
          end
      end
  end.

Definition PhotoString (fuel : nat) (o : option (Photo apiContainer apiPhoto))
  : option (result str) :=
  match o with
  | None => Some (Ok s["<nil>"])
  | Some o => PhotoRemote fuel o
  end.

End RemoteName.

(** [hex.EncodeToString]: two lower-case digits for every byte. *)
Definition hextable : str := s["0123456789abcdef"].

Definition hexDigit (n : nat) : ascii := nth n hextable "0"%char.

Definition hexEncode (src : list ascii) : str :=
  flat_map (fun b => [hexDigit (nat_of_ascii b / 16);
                      hexDigit (nat_of_ascii b mod 16)]) src.

(** [hash.Type], as far as [Hash] tells the types apart. *)
Inductive hashType := MD5 | OtherHash (code : nat).

(** What [Photo.Hash] returns: the digest in hexadecimal, the error
    [hash.ErrUnsupported], the error of the service, or a panic of the
    service. *)
Inductive hashResult :=
| HashOk (sum : str)
| HashUnsupported
| HashError (e : error)
| HashPanic.

Section PhotoHash.

Variables apiContainer apiPhoto : Type.

(** [photo.MD5Hash]: the digest bytes the service gives. *)
Variable MD5Hash : apiPhoto -> result (list ascii).

Definition PhotoHash (o : Photo apiContainer apiPhoto) (t : hashType)
  : hashResult :=
  match t with
  | OtherHash _ => HashUnsupported
  | MD5 =>
      match MD5Hash (photo o) with
      | Panic => HashPanic
      | Err e => HashError e
      | Ok sum => HashOk (hexEncode sum)
      end
  end.

End PhotoHash.

(** A text without separator. *)
Definition slashFree (e : str) : bool :=
  forallb (fun c => negb (Ascii.eqb c slash)) e.

(** A path element: not empty, no separator. *)
Definition solid (e : str) : Prop := e <> [] /\ slashFree e = true.

(** The requested paths without a parent step. *)
Definition noParentStep (p : str) : bool :=
  forallb (fun e => negb (str_eqb e s[".."])) (Path.split p).

(** The real elements of a requested path. *)
Definition realElems (p : str) : list str := filter realElem (Path.split p).

(** What the loop of [Clean] keeps in its buffer: real elements, on top of
    [dotdot] parent steps. *)
Definition bufOk (rooted : bool) (b : Path.lazybuf) : Prop :=
  exists qs, Path.out b = qs ++ repeat s[".."] (Path.dotdot b)
             /\ forallb realElem qs = true.

(** The collaborators of [NewFs] for that service. *)
Definition probeConfig (_ : unit) : result Options :=
  Ok {| UserName := s["user"]; Password := s["secret"] |}.
Definition probeReveal (obscured : str) : result str := Ok obscured.
Definition probeNewClient (_ : Authorization)
  : result (Client (ContainerType * str) str unit) := Ok probeClient.
Definition probeListContainers (_ : Client (ContainerType * str) str unit)
           (_ : Time) (prefix : str) (t : ContainerType) : result DirEntries :=
  Ok [ListedEntry (prefix ++ kindName t)].
Definition probeListPhotos (_ : Client (ContainerType * str) str unit)
           (_ : Time) (prefix : str) (_ : ContainerType) (dir : str)
  : result DirEntries :=
  Ok [ListedEntry (prefix ++ dir)].

Definition probeNewFs (root : str) :=
  NewFs kindOfRule probeConfig probeReveal probeNewClient 0%Z
        probeListContainers probeListPhotos s["nixplay"] root tt.

(** A photo of that service. *)
Definition probePhoto : Photo (ContainerType * str) str :=
  {| parent := (AlbumContainerType, s["Trips/2024"]); photo := s["img1.jpg"] |}.

(** A lower-case hexadecimal digit. *)
Definition isLowerHex (c : ascii) : bool := existsb (Ascii.eqb c) hextable.

(* ================================================================== *)
(** ** Facts about the string functions *)

Section StringFacts.

Import Strings.

Lemma TrimLeft_split (s : str) :
  exists k, s = repeat slash k ++ TrimLeft s.
Proof.
  induction s as [|c s IH]; simpl.
  - now exists 0.
  - destruct (Ascii.eqb_spec c slash) as [->|_].
    + destruct IH as [k Hk]. exists (S k). simpl. now rewrite <- Hk.
    + now exists 0.
Qed.

Lemma TrimLeft_head (s : str) : hd_error (TrimLeft s) <> Some slash.
Proof.
  induction s as [|c s IH]; simpl; [discriminate|].
  destruct (Ascii.eqb_spec c slash) as [->|Hc]; [exact IH|].
  simpl. intros [= E]. contradiction.
Qed.

Lemma rev_repeat (A : Type) (x : A) k : rev (repeat x k) = repeat x k.
Proof.
  induction k as [|k IH]; simpl; [reflexivity|].
  rewrite IH. symmetry. apply repeat_cons.
Qed.

Lemma TrimRight_split (s : str) :
  exists k, s = TrimRight s ++ repeat slash k.
Proof.
  unfold TrimRight. destruct (TrimLeft_split (rev s)) as [k Hk].
  exists k. rewrite <- (rev_involutive s), Hk at 1.
  now rewrite rev_app_distr, rev_repeat.
Qed.

Lemma TrimRight_last (s : str) : last_error (TrimRight s) <> Some slash.
Proof.
  unfold last_error, TrimRight. rewrite rev_involutive. apply TrimLeft_head.
Qed.

Lemma TrimRight_head (s : str) :
  hd_error s <> Some slash -> hd_error (TrimRight s) <> Some slash.
Proof.
  intros Hs. destruct (TrimRight_split s) as [k Hk].
  destruct (TrimRight s) as [|c t]; simpl; [discriminate|].
  rewrite Hk in Hs. exact Hs.
Qed.

(** [Trim] removes separators at the two ends and nothing else. *)
Lemma Trim_spec (s : str) :
  (exists a b, s = repeat slash a ++ Trim s ++ repeat slash b)
  /\ hd_error (Trim s) <> Some slash
  /\ last_error (Trim s) <> Some slash.
Proof.
  unfold Trim. repeat split.
  - destruct (TrimLeft_split s) as [a Ha].
    destruct (TrimRight_split (TrimLeft s)) as [b Hb].
    exists a, b. now rewrite <- Hb.
  - apply TrimRight_head, TrimLeft_head.
  - apply TrimRight_last.
Qed.

End StringFacts.

(* ================================================================== *)
(** ** Facts about the matcher *)

Section RegexpFacts.

Import Regexp.

Lemma search_not_at_start rest s pos cap :
  0 < pos -> search (InstBeginText :: rest) s pos cap = None.
Proof.
  revert pos. induction s as [|a s IH]; intros pos Hpos; simpl;
    destruct (Nat.eqb_spec pos 0); try lia; auto with arith.
Qed.

(** An expression that begins with [^] can only match from offset 0. *)
Lemma search_anchored rest s cap :
  search (InstBeginText :: rest) s 0 cap = run rest s 0 (setCap cap 0 0).
Proof.
  destruct s as [|a s]; simpl.
  - now destruct (run rest [] 0 (setCap cap 0 0)).
  - destruct (run rest (a :: s) 0 (setCap cap 0 0)); [reflexivity|].
    apply search_not_at_start. lia.
Qed.

(** The greedy [c+] before a closing group and [$]: all of the rest of the
    text, which has to be non-empty and in the class. *)
Lemma plus_to_end c n s pos cap :
  plusLoop (run [InstCapture n; InstEndText]) c true s pos cap =
  match s with
  | [] => None
  | _ :: _ =>
      if forallb (classMatches c) s
      then Some (setCap (setCap cap n (pos + length s)) 1 (pos + length s))
      else None
  end.
Proof.
  revert pos. induction s as [|a s IH]; intros pos; [reflexivity|].
  cbn [plusLoop forallb length].
  destruct (classMatches c a); [|reflexivity].
  rewrite IH. destruct s as [|b s].
  - cbn. now rewrite Nat.add_1_r.
  - cbn [andb]. destruct (forallb (classMatches c) (b :: s)).
    + now rewrite Nat.add_succ_r.
    + reflexivity.
Qed.

Lemma itemTail_run s pos cap :
  run itemTail s pos cap =
  match s with
  | [] => None
  | a :: t =>
      if Ascii.eqb a slash then
        match t with
        | [] => None
        | _ :: _ =>
            if forallb (classMatches notSlash) t
            then Some (setCap (setCap (setCap (setCap cap 3 pos) 4 (S pos))
                                      5 (S pos + length t)) 1 (S pos + length t))
            else None
        end
      else None
  end.
Proof.
  destruct s as [|a t]; [reflexivity|].
  cbn [itemTail run classMatches].
  destruct (Ascii.eqb a slash); [|reflexivity].
  apply plus_to_end.
Qed.

Lemma notSlash_slash : classMatches notSlash slash = false.
Proof. reflexivity. Qed.

(** The tail cannot start while a separator is still ahead of the last
    segment. *)
Lemma itemTail_too_early mid last pos cap :
  mid <> [] -> run itemTail (mid ++ slash :: last) pos cap = None.
Proof.
  intros Hmid. rewrite itemTail_run.
  destruct mid as [|a mid]; [contradiction|]. cbn [app].
  destruct (Ascii.eqb a slash); [|reflexivity].
  destruct (mid ++ slash :: last) eqn:E.
  - reflexivity.
  - rewrite <- E, forallb_app. cbn [forallb]. rewrite notSlash_slash.
    now rewrite andb_false_r.
Qed.

(** The lazy [.+?] of the item expressions stops at the last separator. *)
Lemma lazy_group_to_last_slash mid last pos cap :
  mid <> [] -> forallb (classMatches ClsAnyNotNL) mid = true ->
  last <> [] -> forallb (classMatches notSlash) last = true ->
  plusLoop (run itemTail) ClsAnyNotNL false (mid ++ slash :: last) pos cap =
  let p3 := pos + length mid in
  let pe := S p3 + length last in
  Some (setCap (setCap (setCap (setCap cap 3 p3) 4 (S p3)) 5 pe) 1 pe).
Proof.
  intros Hmid Hnl Hlast Hns. revert pos Hmid Hnl.
  induction mid as [|a mid IH]; intros pos Hmid Hnl; [contradiction|].
  cbn [forallb] in Hnl. apply andb_prop in Hnl as [Ha Hnl].
  cbn [app plusLoop]. rewrite Ha.
  destruct mid as [|b mid].
  - cbn [app]. rewrite itemTail_run. cbn [Ascii.eqb].
    replace (Ascii.eqb slash slash) with true by reflexivity.
    destruct last as [|l last]; [contradiction|].
    rewrite Hns. cbn [length]. now rewrite Nat.add_1_r.
  - rewrite itemTail_too_early by discriminate.
    rewrite IH by (try discriminate; assumption).
    cbn [length]. now rewrite !Nat.add_succ_r.
Qed.

(** [s[i:j]] picks the middle of a text cut in three. *)
Lemma slice_middle (a b c s : str) i j :
  s = a ++ b ++ c -> i = length a -> j = i + length b -> slice i j s = b.
Proof.
  intros -> -> ->. unfold slice.
  rewrite skipn_app, skipn_all, Nat.sub_diag. cbn [app skipn].
  replace (length a + length b - length a) with (length b) by lia.
  rewrite firstn_app, firstn_all, Nat.sub_diag. cbn. apply app_nil_r.
Qed.

End RegexpFacts.

(* ================================================================== *)
(** ** Facts about the table *)

Section TableFacts.

Import Regexp.

(** Compiling the built-in table does not panic. *)
Lemma patterns_compiled :
  DirPatterns.mustCompile patternsLiteral = Some patterns.
Proof. reflexivity. Qed.

Lemma run_literal l rest s pos cap :
  run (literal l ++ rest) (l ++ s) pos cap = run rest s (pos + length l) cap.
Proof.
  revert pos. induction l as [|c l IH]; intros pos; cbn [literal map app run length].
  - now rewrite Nat.add_0_r.
  - cbn [classMatches]. rewrite Ascii.eqb_refl.
    fold (literal l). rewrite IH. now rewrite Nat.add_succ_r.
Qed.

(** A compiled program that starts with the literal [l] only matches texts
    that start with [l]. *)
Lemma run_literal_inv l rest s pos cap r :
  run (literal l ++ rest) s pos cap = Some r ->
  exists t, s = l ++ t /\ run rest t (pos + length l) cap = Some r.
Proof.
  revert s pos. induction l as [|c l IH]; intros s pos H.
  - exists s. now rewrite Nat.add_0_r.
  - cbn [literal map app run classMatches] in H.
    destruct s as [|a s]; [discriminate|].
    destruct (Ascii.eqb_spec a c) as [->|_]; [|discriminate].
    fold (literal l) in H. apply IH in H as (t & -> & H).
    exists t. split; [reflexivity|]. cbn [length]. now rewrite Nat.add_succ_r.
Qed.

Lemma item_rule t :
  exists p, nth_error patterns (itemIndex t) = Some p
    /\ match_re p = Some {| prog := itemProg t; numSubexp := 2 |}
    /\ isFile p = true /\ canUpload p = true /\ canMkdir p = false.
Proof. destruct t; eexists; repeat split; reflexivity. Qed.

(** The item expression on [kind/mid/last]. *)
Lemma item_submatch t mid last :
  mid <> [] -> noNewline mid = true -> last <> [] -> noSlash last = true ->
  let absPath := kindName t ++ slash :: mid ++ slash :: last in
  FindStringSubmatch {| prog := itemProg t; numSubexp := 2 |} absPath
  = Some [absPath; mid; last].
Proof.
  intros Hmid Hnl Hlast Hns absPath.
  unfold FindStringSubmatch, itemProg. cbn [prog numSubexp].
  rewrite search_anchored.
  assert (Eabs : absPath = (kindName t ++ [slash]) ++ mid ++ slash :: last).
  { unfold absPath. now rewrite <- app_assoc. }
  rewrite Eabs at 1. rewrite run_literal.
  cbn [run]. rewrite lazy_group_to_last_slash by assumption.
  cbn [Nat.mul Nat.add repeat setCap seq map].
  unfold group. cbn [Nat.mul Nat.add nth].
  set (k := kindName t ++ [slash]) in *.
  f_equal. f_equal; [|f_equal; [|f_equal]].
  - apply (slice_middle [] absPath []); [now rewrite app_nil_r|reflexivity|].
    rewrite Eabs, !length_app. cbn [length]. lia.
  - now apply (slice_middle k mid (slash :: last)).
  - apply (slice_middle (k ++ mid ++ [slash]) last []).
    + rewrite Eabs, app_nil_r, <- !app_assoc. reflexivity.
    + rewrite !length_app. cbn [length]. lia.
    + lia.
Qed.

Lemma stripLiteral_eq p :
  p = literal (fst (stripLiteral p)) ++ snd (stripLiteral p).
Proof.
  induction p as [|i p IH]; [reflexivity|].
  destruct i as [| |n|[c| |neg cs]|c g]; try reflexivity.
  cbn [stripLiteral]. destruct (stripLiteral p) as [l rest].
  cbn [fst snd literal map app] in *. now rewrite IH at 1.
Qed.

(** A text matched by an expression [^literal...] starts with the literal,
    and is the literal when the expression is [^literal$]. *)
Lemma anchored_shape p n absPath m :
  FindStringSubmatch {| prog := InstBeginText :: p; numSubexp := n |} absPath
    = Some m ->
  exists t, absPath = fst (stripLiteral p) ++ t
    /\ (snd (stripLiteral p) = [InstEndText] -> t = []).
Proof.
  unfold FindStringSubmatch. cbn [prog numSubexp]. rewrite search_anchored.
  destruct (run p absPath 0 _) as [r|] eqn:E; [|discriminate]. intros _.
  rewrite (stripLiteral_eq p) in E.
  apply run_literal_inv in E as (t & -> & E).
  exists t. split; [reflexivity|]. intros Hend. rewrite Hend in E.
  destruct t; [reflexivity|discriminate].
Qed.

(** Every rule of the table is compiled and anchored at the start. *)
Lemma patterns_anchored i p :
  nth_error patterns i = Some p ->
  exists q n, match_re p = Some {| prog := InstBeginText :: q; numSubexp := n |}.
Proof.
  do 7 (destruct i as [|i]; [intros [= <-]; eexists _, _; reflexivity|]).
  destruct i; discriminate.
Qed.

(** *** The loop of [match] *)

Lemma matchLoop_Matched ds absPath prefix w m pre p :
  DirPatterns.matchLoop ds absPath prefix w = Matched m pre p ->
  pre = prefix /\
  exists i, nth_error ds i = Some p /\ isFile p = w
    /\ submatch p absPath = Some m
    /\ forall j q, j < i -> nth_error ds j = Some q -> isFile q = w ->
                   submatch q absPath = None.
Proof.
  induction ds as [|d ds IH]; cbn [DirPatterns.matchLoop]; [discriminate|].
  destruct (Bool.eqb (isFile d) w) eqn:Ew; cbn [negb].
  - apply Bool.eqb_prop in Ew.
    destruct (match_re d) as [r|] eqn:Er; [|discriminate].
    destruct (FindStringSubmatch r absPath) as [m'|] eqn:Em.
    + intros [= <- <- <-]. split; [reflexivity|]. exists 0.
      repeat split; auto.
      * unfold submatch. now rewrite Er.
      * intros j q Hj. lia.
    + intros H. destruct (IH H) as (-> & i & Hi & Hw & Hm & Hbefore).
      split; [reflexivity|]. exists (S i). repeat split; auto.
      intros [|j] q Hj; cbn [nth_error].
      * intros [= <-] _. unfold submatch. now rewrite Er.
      * apply Hbefore. lia.
  - apply Bool.eqb_false_iff in Ew.
    intros H. destruct (IH H) as (-> & i & Hi & Hw & Hm & Hbefore).
    split; [reflexivity|]. exists (S i). repeat split; auto.
    intros [|j] q Hj; cbn [nth_error].
    + intros [= <-] Hq. contradiction.
    + apply Hbefore. lia.
Qed.

Lemma matchLoop_NoMatch ds absPath prefix w :
  DirPatterns.matchLoop ds absPath prefix w = NoMatch ->
  forall q, In q ds -> isFile q = w -> submatch q absPath = None.
Proof.
  induction ds as [|d ds IH]; cbn [DirPatterns.matchLoop In]; [contradiction|].
  destruct (Bool.eqb (isFile d) w) eqn:Ew; cbn [negb].
  - destruct (match_re d) as [r|] eqn:Er; [|discriminate].
    destruct (FindStringSubmatch r absPath) as [m'|] eqn:Em; [discriminate|].
    intros H q [<-|Hq] Hw; [|now apply IH].
    unfold submatch. now rewrite Er.
  - apply Bool.eqb_false_iff in Ew.
    intros H q [<-|Hq] Hw; [contradiction|now apply IH].
Qed.

(** On a compiled table the loop returns the first rule of the wanted
    style that matches, and looks no further. *)
Lemma matchLoop_first ds absPath prefix w i p m :
  compiled ds ->
  nth_error ds i = Some p -> isFile p = w -> submatch p absPath = Some m ->
  (forall j q, j < i -> nth_error ds j = Some q -> isFile q = w ->
               submatch q absPath = None) ->
  DirPatterns.matchLoop ds absPath prefix w = Matched m prefix p.
Proof.
  intros Hc. revert i. induction Hc as [|d ds Hd Hc IH]; intros i Hi Hw Hm Hbefore.
  - destruct i; discriminate.
  - cbn [DirPatterns.matchLoop]. destruct i as [|i]; cbn [nth_error] in Hi.
    + injection Hi as ->. rewrite Hw, Bool.eqb_reflx. cbn [negb].
      unfold submatch in Hm. destruct (match_re p); [|discriminate].
      now rewrite Hm.
    + destruct (Bool.eqb (isFile d) w) eqn:Ew; cbn [negb].
      * apply Bool.eqb_prop in Ew.
        assert (Hn : submatch d absPath = None)
          by (apply (Hbefore 0); [lia|reflexivity|assumption]).
        unfold submatch in Hn. destruct (match_re d); [|contradiction].
        rewrite Hn. apply (IH i); auto.
        intros j q Hj. apply (Hbefore (S j)). lia.
      * apply (IH i); auto.
        intros j q Hj. apply (Hbefore (S j)). lia.
Qed.

Lemma matchLoop_none ds absPath prefix w :
  compiled ds ->
  (forall q, In q ds -> isFile q = w -> submatch q absPath = None) ->
  DirPatterns.matchLoop ds absPath prefix w = NoMatch.
Proof.
  induction 1 as [|d ds Hd Hc IH]; intros Hnone; [reflexivity|].
  cbn [DirPatterns.matchLoop].
  destruct (Bool.eqb (isFile d) w) eqn:Ew; cbn [negb].
  - apply Bool.eqb_prop in Ew.
    assert (Hn : submatch d absPath = None) by (apply Hnone; [now left|assumption]).
    unfold submatch in Hn. destruct (match_re d); [|contradiction].
    rewrite Hn. apply IH. intros q Hq. apply Hnone. now right.
  - apply IH. intros q Hq. apply Hnone. now right.
Qed.

Lemma patterns_are_compiled : compiled patterns.
Proof. repeat constructor; discriminate. Qed.

(** [match] on the table, when the slice expression is in range. *)
Lemma match_in_range root itemPath w :
  length root <= length (DirPatterns.absPathOf root itemPath) ->
  DirPatterns.match_ patterns root itemPath w =
  DirPatterns.matchLoop patterns (DirPatterns.absPathOf root itemPath)
    (DirPatterns.prefixOf root (DirPatterns.absPathOf root itemPath)) w.
Proof.
  intros H. unfold DirPatterns.match_.
  destruct (Nat.ltb_spec (length (DirPatterns.absPathOf root itemPath))
                         (length root)); [lia|reflexivity].
Qed.

Lemma match_Matched root itemPath w m prefix p :
  DirPatterns.match_ patterns root itemPath w = Matched m prefix p ->
  length root <= length (DirPatterns.absPathOf root itemPath)
  /\ DirPatterns.matchLoop patterns (DirPatterns.absPathOf root itemPath)
       (DirPatterns.prefixOf root (DirPatterns.absPathOf root itemPath)) w
     = Matched m prefix p.
Proof.
  unfold DirPatterns.match_.
  destruct (Nat.ltb_spec (length (DirPatterns.absPathOf root itemPath))
                         (length root)); [discriminate|]. auto.
Qed.

End TableFacts.

Lemma matchLoop_no_panic ds absPath prefix w :
  compiled ds -> DirPatterns.matchLoop ds absPath prefix w <> MatchPanic.
Proof.
  induction 1 as [|d ds Hd Hc IH]; cbn [DirPatterns.matchLoop]; [discriminate|].
  destruct (negb (Bool.eqb (isFile d) w)); [exact IH|].
  destruct (match_re d) as [r|]; [|contradiction].
  destruct (Regexp.FindStringSubmatch r absPath); [discriminate|exact IH].
Qed.

(** When the slice expression of [match] is in range, [match] returns the
    first rule (in the order of the table) of the wanted style whose
    expression matches the joined path, with its captures, and no match when
    there is none. *)
Lemma match_first_wins root itemPath w :
  let absPath := DirPatterns.absPathOf root itemPath in
  length root <= length absPath ->
  match DirPatterns.match_ patterns root itemPath w with
  | MatchPanic => False
  | NoMatch =>
      forall q, In q patterns -> isFile q = w -> submatch q absPath = None
  | Matched m prefix p =>
      prefix = DirPatterns.prefixOf root absPath /\
      exists i, nth_error patterns i = Some p /\ isFile p = w
        /\ submatch p absPath = Some m
        /\ forall j q, j < i -> nth_error patterns j = Some q -> isFile q = w ->
                       submatch q absPath = None
  end.
Proof.
  intros absPath Hlen. rewrite match_in_range by exact Hlen. fold absPath.
  destruct (DirPatterns.matchLoop patterns absPath _ w) eqn:E.
  - now apply matchLoop_no_panic in E; [|apply patterns_are_compiled].
  - now apply matchLoop_NoMatch with (1 := E).
  - now apply matchLoop_Matched with (1 := E).
Qed.

(** [match] panics exactly when the joined path is shorter than the root. *)
Lemma match_panics_iff root itemPath w :
  DirPatterns.match_ patterns root itemPath w = MatchPanic
  <-> length (DirPatterns.absPathOf root itemPath) < length root.
Proof.
  unfold DirPatterns.match_.
  destruct (Nat.ltb_spec (length (DirPatterns.absPathOf root itemPath))
                         (length root)) as [Hlt|Hge].
  - tauto.
  - split; [|lia]. intros E.
    now apply matchLoop_no_panic in E; [|apply patterns_are_compiled].
Qed.

(* ================================================================== *)
(** ** The claims *)

(** C1 (the code departs from the claim).  With root [album/x] and
    requested path [..] the joined path is [album], which the kind-root rule
    [^album$] matches in directory style: the loop of [match] would return
    that rule.  [match] itself never reaches the loop: the joined path is
    shorter than the root, and the slice expression that computes the prefix
    panics. *)
Theorem match_slice_out_of_range :
  DirPatterns.absPathOf s["album/x"] s[".."] = s["album"]
  /\ (exists p, nth_error patterns (kindRootIndex AlbumContainerType) = Some p
        /\ re p = "^album$"%string
        /\ DirPatterns.matchLoop patterns s["album"] [] false
           = Matched [s["album"]] [] p)
  /\ DirPatterns.match_ patterns s["album/x"] s[".."] false = MatchPanic.
Proof.
  split; [reflexivity|]. split; [|reflexivity].
  eexists. repeat split; reflexivity.
Qed.

(** C4.  With the empty root, [match] of [album/Vacation/img1.jpg] in file
    style returns the album item rule with the captures [Vacation] and
    [img1.jpg]; the rule allows uploads. *)
Theorem match_album_item :
  exists p,
    nth_error patterns (itemIndex AlbumContainerType) = Some p
    /\ re p = "^album/(.+?)/([^/]+)$"%string
    /\ DirPatterns.match_ patterns [] s["album/Vacation/img1.jpg"] true
       = Matched [s["album/Vacation/img1.jpg"]; s["Vacation"]; s["img1.jpg"]]
                 s["album/Vacation/img1.jpg/"] p
    /\ isFile p = true
    /\ canUpload p = true.
Proof. eexists. repeat split; reflexivity. Qed.

(** C7.  The flags of the table: [canUpload] is set on the two item rules
    and on no other rule, [canMkdir] on the two collection rules and on no
    other rule; a rule that allows uploads is a file rule, a rule that
    allows making directories is a directory rule. *)
Theorem table_flags :
  map (fun p => (re p, (canUpload p, canMkdir p, isFile p))) patterns
  = [ ("^$",                       (false, false, false));
      ("^album$",                  (false, false, false));
      ("^album/(.+)$",             (false, true,  false));
      ("^album/(.+?)/([^/]+)$",    (true,  false, true));
      ("^playlist$",               (false, false, false));
      ("^playlist/(.+)$",          (false, true,  false));
      ("^playlist/(.+?)/([^/]+)$", (true,  false, true)) ]%string
  /\ map canUpload patterns
     = map (fun i => existsb (fun t => i =? itemIndex t)
                       [AlbumContainerType; PlaylistContainerType])
           (seq 0 (length patterns))
  /\ map canMkdir patterns
     = map (fun i => existsb (fun t => i =? collectionIndex t)
                       [AlbumContainerType; PlaylistContainerType])
           (seq 0 (length patterns))
  /\ Forall (fun p => (canUpload p = true -> isFile p = true)
                   /\ (canMkdir p = true -> isFile p = false)) patterns.
Proof.
  repeat split; try reflexivity.
  repeat constructor; cbn; congruence.
Qed.

(** C8.  With the empty root, [match] of the empty path in directory style
    returns the root rule, and the callback of that rule yields two
    directories, named by the prefix followed by [album] and by [playlist],
    whatever the lister, its time stamp, the prefix and the captures. *)
Theorem root_rule_lists_both_kinds :
  exists p produce,
    nth_error patterns 0 = Some p
    /\ re p = "^$"%string
    /\ DirPatterns.match_ patterns [] [] false = Matched [[]] [] p
    /\ toEntries p = Some produce
    /\ forall (f : lister) (prefix : str) (m : list str),
         produce f prefix m
         = Ok [ NewDir (prefix ++ kindName AlbumContainerType) (dirTime f);
                NewDir (prefix ++ kindName PlaylistContainerType) (dirTime f) ].
Proof. eexists _, _. repeat split; reflexivity. Qed.

(** C3 (the code departs from the claim).  With root [album/x] and
    requested path [../Vacation] the joined path is [album/Vacation].  It
    does not begin with the root, so no part of it comes after the root;
    [match] in directory style still returns the album collection rule, and
    as prefix [acation/], the bytes of the joined path from offset
    [len(root)] on.  The slice expression takes for granted that the joined
    path begins with the root: the omission that makes [match] panic when the
    joined path is shorter than the root gives a wrong prefix when it is
    long enough. *)
Theorem match_prefix_outside_root :
  let root := s["album/x"] in
  let itemPath := s["../Vacation"] in
  let absPath := DirPatterns.absPathOf root itemPath in
  absPath = s["album/Vacation"]
  /\ (forall portion, absPath <> root ++ portion)
  /\ exists p,
       nth_error patterns (collectionIndex AlbumContainerType) = Some p
       /\ re p = "^album/(.+)$"%string
       /\ DirPatterns.match_ patterns root itemPath false
          = Matched [s["album/Vacation"]; s["Vacation"]] s["acation/"] p.
Proof.
  cbv zeta. split; [reflexivity|]. split.
  - intros portion. discriminate.
  - eexists. repeat split; reflexivity.
Qed.

(** Where the joined path does begin with the root, the prefix that comes
    with a rule is the rest of the joined path with the separators at its two
    ends removed, followed by one separator unless that rest is empty; and a
    request without root that is joined to the same path gets the same
    captures and the same rule. *)
Lemma prefix_below_root (root itemPath portion : str) (w : bool) m prefix p :
  DirPatterns.match_ patterns root itemPath w = Matched m prefix p ->
  DirPatterns.absPathOf root itemPath = root ++ portion ->
  let trimmed := Strings.Trim portion in
  (exists a b, portion = repeat slash a ++ trimmed ++ repeat slash b)
  /\ hd_error trimmed <> Some slash
  /\ last_error trimmed <> Some slash
  /\ (trimmed = [] -> prefix = [])
  /\ (trimmed <> [] -> prefix = trimmed ++ [slash])
  /\ (forall itemPath',
        DirPatterns.absPathOf [] itemPath' = root ++ portion ->
        exists prefix',
          DirPatterns.match_ patterns [] itemPath' w = Matched m prefix' p).
Proof.
  intros H Habs trimmed.
  apply match_Matched in H as [Hlen H]. rewrite Habs in H.
  pose proof H as Hloop.
  apply matchLoop_Matched in H as [Hpre _].
  assert (Hskip : skipn (length root) (root ++ portion) = portion).
  { rewrite skipn_app, skipn_all, Nat.sub_diag. reflexivity. }
  unfold DirPatterns.prefixOf in Hpre. rewrite Hskip in Hpre.
  fold trimmed in Hpre.
  destruct (Trim_spec portion) as (Hsplit & Hhd & Hlast).
  fold trimmed in Hsplit, Hhd, Hlast.
  repeat split; try assumption.
  - intros E. rewrite Hpre. now rewrite E.
  - intros E. rewrite Hpre. now destruct trimmed.
  - intros itemPath' E. eexists.
    rewrite match_in_range by (cbn; lia). rewrite E.
    apply matchLoop_Matched in Hloop as (_ & i & Hi & Hw & Hm & Hbefore).
    eapply matchLoop_first; eauto using patterns_are_compiled.
Qed.

(** C10.  When [match] in file style returns a rule, the captures are three:
    the whole match and the two groups; indices 1 and 2 are in range. *)
Theorem file_match_has_three_captures (root itemPath : str) m prefix p :
  DirPatterns.match_ patterns root itemPath true = Matched m prefix p ->
  length m = 3
  /\ (exists containerName, nth_error m 1 = Some containerName)
  /\ (exists photoName, nth_error m 2 = Some photoName).
Proof.
  intros H. apply match_Matched in H as [_ H].
  apply matchLoop_Matched in H as (_ & i & Hi & Hw & Hm & _).
  assert (Hn : exists r, match_re p = Some r /\ Regexp.numSubexp r = 2).
  { do 7 (destruct i as [|i];
          [injection Hi as <-; try discriminate Hw; eexists; split; reflexivity|]).
    destruct i; discriminate. }
  destruct Hn as (r & Hr & Hn).
  unfold submatch in Hm. rewrite Hr in Hm.
  unfold Regexp.FindStringSubmatch in Hm. rewrite Hn in Hm.
  destruct (Regexp.search _ _ _ _); [|discriminate].
  injection Hm as <-. cbn. repeat split; eexists; reflexivity.
Qed.

Lemma file_match_has_three_captures_witness :
  length [s["album/Vacation/img1.jpg"]; s["Vacation"]; s["img1.jpg"]] = 3
  /\ (exists containerName,
        nth_error [s["album/Vacation/img1.jpg"]; s["Vacation"]; s["img1.jpg"]] 1
        = Some containerName)
  /\ (exists photoName,
        nth_error [s["album/Vacation/img1.jpg"]; s["Vacation"]; s["img1.jpg"]] 2
        = Some photoName).
Proof.
  eapply (file_match_has_three_captures [] s["album/Vacation/img1.jpg"]).
  reflexivity.
Defined.

(** The shape of the paths a rule of the table matches: they start with the
    literal the expression starts with, and are that literal when nothing but
    [$] follows it. *)
Lemma rule_shape i p absPath :
  nth_error patterns i = Some p -> ruleMatches p absPath = true ->
  exists q n,
    match_re p = Some {| Regexp.prog := Regexp.InstBeginText :: q;
                         Regexp.numSubexp := n |}
    /\ exists t, absPath = fst (stripLiteral q) ++ t
         /\ (snd (stripLiteral q) = [Regexp.InstEndText] -> t = []).
Proof.
  intros Hi Hm. destruct (patterns_anchored _ Hi) as (q & n & Hq).
  exists q, n. split; [exact Hq|].
  unfold ruleMatches, submatch in Hm. rewrite Hq in Hm.
  destruct (Regexp.FindStringSubmatch _ absPath) as [m|] eqn:E; [|discriminate].
  now apply anchored_shape in E.
Qed.

Tactic Notation "rule_cases" ident(i) ident(Hi) :=
  destruct i as [|[|[|[|[|[|[|i]]]]]]];
  [..|destruct i; discriminate Hi]; injection Hi as <-.

(** C6.  On any path at all, and so on every path of the grammar, two rules
    of the same style that both match are the same rule of the table. *)
Theorem rules_of_a_style_exclusive (absPath : str) i j p q :
  nth_error patterns i = Some p -> nth_error patterns j = Some q ->
  isFile p = isFile q ->
  ruleMatches p absPath = true -> ruleMatches q absPath = true ->
  i = j.
Proof.
  intros Hi Hj Hstyle Hp Hq.
  destruct (rule_shape _ _ Hi Hp) as (pp & pn & Epp & tp & Ep & Endp).
  destruct (rule_shape _ _ Hj Hq) as (qq & qn & Eqq & tq & Eq & Endq).
  clear Hp Hq.
  rule_cases i Hi; injection Epp as <- <-; cbn in Ep, Endp;
    try specialize (Endp eq_refl);
    rule_cases j Hj; try discriminate Hstyle; try reflexivity;
    injection Eqq as <- <-; cbn in Eq, Endq;
    try specialize (Endq eq_refl); subst; discriminate.
Qed.

Lemma rules_of_a_style_exclusive_witness :
  exists p, nth_error patterns 2 = Some p
    /\ ruleMatches p s["album/Vacation"] = true /\ 2 = 2.
Proof.
  eexists. split; [reflexivity|]. split; [reflexivity|].
  eapply (rules_of_a_style_exclusive s["album/Vacation"] 2 2); reflexivity.
Defined.

(** No file rule before the item rule of a kind matches a path of that
    kind. *)
Lemma no_earlier_file_rule t rest j q :
  j < itemIndex t -> nth_error patterns j = Some q -> isFile q = true ->
  submatch q (kindName t ++ slash :: rest) = None.
Proof.
  intros Hj Hq Hfile.
  destruct (submatch q _) as [m|] eqn:E; [exfalso|reflexivity].
  assert (Hm : ruleMatches q (kindName t ++ slash :: rest) = true)
    by (unfold ruleMatches; now rewrite E).
  destruct (rule_shape _ _ Hq Hm) as (qq & qn & Eqq & tq & Eq & _).
  destruct t; cbn in Hj; rule_cases j Hq; try discriminate Hfile; try lia;
    injection Eqq as <- <-; discriminate Eq.
Qed.

(** C9 (as amended).  Let the joined path be [kind/mid/last], where [mid]
    is not empty and has no newline and [last] is not empty and has no
    separator, and let the joined path be at least as long as the root, so
    that the slice expression of [match] is in range.  Then [match] in file
    style returns the item rule of the kind with the captures [mid] and
    [last]: [mid] is all there is between the kind and the last separator,
    and may itself have separators.  A joined path shorter than the root is
    left out: there [match] panics before it looks at the table. *)
Theorem item_paths_match (t : ContainerType) (root itemPath mid last : str) :
  let absPath := kindName t ++ slash :: mid ++ slash :: last in
  DirPatterns.absPathOf root itemPath = absPath ->
  length root <= length absPath ->
  mid <> [] -> noNewline mid = true ->
  last <> [] -> noSlash last = true ->
  exists p,
    nth_error patterns (itemIndex t) = Some p
    /\ DirPatterns.match_ patterns root itemPath true
       = Matched [absPath; mid; last] (DirPatterns.prefixOf root absPath) p.
Proof.
  intros absPath Habs Hlen Hmid Hnl Hlast Hns.
  destruct (item_rule t) as (p & Hp & Hre & Hfile & _).
  exists p. split; [exact Hp|].
  rewrite match_in_range by (rewrite Habs; exact Hlen). rewrite Habs.
  apply matchLoop_first with (i := itemIndex t); auto using patterns_are_compiled.
  - unfold submatch. rewrite Hre. now apply item_submatch.
  - intros j q. apply no_earlier_file_rule.
Qed.

Lemma item_paths_match_witness :
  exists p,
    nth_error patterns 6 = Some p
    /\ DirPatterns.match_ patterns s["playlist"] s["Trips/2024/day 1/img1.jpg"] true
       = Matched [s["playlist/Trips/2024/day 1/img1.jpg"];
                  s["Trips/2024/day 1"]; s["img1.jpg"]]
                 s["Trips/2024/day 1/img1.jpg/"] p.
Proof.
  apply (@item_paths_match PlaylistContainerType s["playlist"]
           s["Trips/2024/day 1/img1.jpg"] s["Trips/2024/day 1"] s["img1.jpg"]);
    first [reflexivity | discriminate | cbn; lia].
Defined.

(** C9 as stated fails: [album/a<newline>b/c] has two segments after the
    kind, both non-empty, the last one without separator, and no file rule
    matches it, because [.] does not match a newline. *)
Lemma item_path_with_newline_unmatched :
  let seg1 := s["a"] ++ newline :: s["b"] in
  let seg2 := s["c"] in
  seg1 <> [] /\ seg2 <> [] /\ noSlash seg1 = true /\ noSlash seg2 = true
  /\ DirPatterns.absPathOf [] (s["album/"] ++ seg1 ++ slash :: seg2)
     = s["album/"] ++ seg1 ++ slash :: seg2
  /\ DirPatterns.match_ patterns [] (s["album/"] ++ seg1 ++ slash :: seg2) true
     = NoMatch.
Proof. cbv zeta. repeat split; try reflexivity; discriminate. Qed.

Section OperationErrors.

Variables apiContainer apiPhoto Reader : Type.
Variable containerType : dirPattern -> ContainerType.
Variable f : Fs apiContainer apiPhoto Reader.

(** A rule returned for a file-style request is an item rule: it allows
  uploads. *)
Lemma file_match_can_upload root itemPath m prefix p :
DirPatterns.match_ patterns root itemPath true = Matched m prefix p ->
isFile p = true /\ canUpload p = true.
Proof.
intros H. apply match_Matched in H as [_ H].
apply matchLoop_Matched in H as (_ & i & Hi & Hw & _).
rule_cases i Hi; try discriminate Hw; split; reflexivity.
Qed.

(** C2 (as amended).  With no rule for the path, [List], [Mkdir] and
  [Rmdir] return the directory-not-found error and [NewObject] the
  object-not-found error, while [Put] returns its own refusal,
  [errCantUpload]; with a rule that does not allow the operation, [Mkdir]
  returns [errCantMkdir], [Rmdir] [errCantRmdir] and [Put]
  [errCantUpload]. *)
Theorem operation_errors :
(forall dir,
    DirPatterns.match_ patterns (root f) dir false = NoMatch ->
    List f dir = Err ErrorDirNotFound
    /\ Mkdir containerType f dir = Err ErrorDirNotFound
    /\ Rmdir containerType f dir = Err ErrorDirNotFound)
/\ (forall remote,
    DirPatterns.match_ patterns (root f) remote true = NoMatch ->
    NewObject containerType f remote = Err ErrorObjectNotFound)
/\ (forall input src,
    DirPatterns.match_ patterns (root f) (Remote src) true = NoMatch ->
    Put containerType f input src = Err errCantUpload)
/\ (forall input src m prefix p,
    DirPatterns.match_ patterns (root f) (Remote src) true = Matched m prefix p ->
    canUpload p = false ->
    Put containerType f input src = Err errCantUpload)
/\ (forall remote m prefix p,
    DirPatterns.match_ patterns (root f) remote true = Matched m prefix p ->
    isFile p = true /\ canUpload p = true)
/\ (forall dir m prefix p,
    DirPatterns.match_ patterns (root f) dir false = Matched m prefix p ->
    canMkdir p = false ->
    Mkdir containerType f dir = Err errCantMkdir
    /\ Rmdir containerType f dir = Err errCantRmdir).
Proof.
split; [|split; [|split; [|split; [|split]]]].
- intros dir H. unfold List, Mkdir, Rmdir. now rewrite H.
- intros remote H. unfold NewObject. now rewrite H.
- intros input src H. unfold Put. now rewrite H.
- intros input src m prefix p H Hup. unfold Put. rewrite H, Hup.
  now rewrite orb_true_r.
- intros remote m prefix p. apply file_match_can_upload.
- intros dir m prefix p H Hflag. unfold Mkdir, Rmdir. now rewrite H, Hflag.
Qed.

End OperationErrors.

Lemma operation_errors_witness :
  List (silentFs []) s["photos"] = Err ErrorDirNotFound
  /\ NewObject kindOfRule (silentFs []) s["album/Vacation"] = Err ErrorObjectNotFound
  /\ Put kindOfRule (silentFs []) tt
       {| Remote := s["album/Vacation"]; Size := 0%Z; srcMimeType := None |}
     = Err errCantUpload
  /\ Mkdir kindOfRule (silentFs []) s["album"] = Err errCantMkdir
  /\ Rmdir kindOfRule (silentFs []) s["playlist"] = Err errCantRmdir.
Proof.
  destruct (operation_errors kindOfRule (silentFs []))
    as (Hdir & Hobj & Hput & _ & _ & Hflag).
  split; [apply (Hdir s["photos"]); reflexivity|].
  split; [apply (Hobj s["album/Vacation"]); reflexivity|].
  split; [apply Hput; reflexivity|].
  split; [eapply (Hflag s["album"]); reflexivity|].
  eapply (Hflag s["playlist"]); reflexivity.
Defined.

(** C2 as stated fails for [Put]: with no rule for the path it returns
    [errCantUpload], not the object-not-found error. *)
Lemma Put_without_rule_refuses_upload :
  let src := {| Remote := s["album/Vacation"]; Size := 0%Z; srcMimeType := None |} in
  DirPatterns.match_ patterns (root (silentFs [])) (Remote src) true = NoMatch
  /\ Put kindOfRule (silentFs []) tt src = Err errCantUpload
  /\ Put kindOfRule (silentFs []) tt src <> Err ErrorObjectNotFound.
Proof. cbv zeta. repeat split; try reflexivity. discriminate. Qed.

(** The lazy group of an item expression needs a separator after it. *)
Lemma lazy_group_needs_slash s pos cap :
  noSlash s = true ->
  Regexp.plusLoop (Regexp.run itemTail) Regexp.ClsAnyNotNL false s pos cap = None.
Proof.
  revert pos. induction s as [|a s IH]; intros pos Hs; [reflexivity|].
  cbn [noSlash forallb] in Hs. apply andb_prop in Hs as [Ha Hs].
  cbn [Regexp.plusLoop].
  destruct (Regexp.classMatches Regexp.ClsAnyNotNL a); [|reflexivity].
  rewrite itemTail_run. rewrite (IH _ Hs).
  destruct s as [|b s]; [reflexivity|].
  cbn [noSlash forallb] in Hs. apply andb_prop in Hs as [Hb _].
  cbn in Hb. rewrite orb_false_r in Hb.
  now destruct (Ascii.eqb b slash).
Qed.

(** An item expression does not match [kind/name] when [name] has no
    separator. *)
Lemma item_needs_two_segments t' t name :
  noSlash name = true ->
  Regexp.FindStringSubmatch
    {| Regexp.prog := itemProg t'; Regexp.numSubexp := 2 |}
    (kindName t ++ slash :: name) = None.
Proof.
  intros Hname. unfold Regexp.FindStringSubmatch, itemProg.
  cbn [Regexp.prog Regexp.numSubexp]. rewrite search_anchored.
  destruct (Regexp.run _ _ 0 _) as [r|] eqn:R; [exfalso|reflexivity].
  apply run_literal_inv in R as (rest & Habs & R).
  cbn [Regexp.run] in R.
  assert (rest = name) as ->
    by (destruct t, t'; cbn in Habs; congruence).
  now rewrite lazy_group_needs_slash in R.
Qed.

(** C5.  With the empty root, [match] of [album/Vacation] in file style
    returns no rule, while the same path in directory style is the album
    collection [Vacation]; and so for every joined path [kind/name] with one
    segment after the kind: both file rules need a second segment. *)
Theorem match_collection_as_file :
  DirPatterns.match_ patterns [] s["album/Vacation"] true = NoMatch
  /\ (exists p,
       nth_error patterns (collectionIndex AlbumContainerType) = Some p
       /\ DirPatterns.match_ patterns [] s["album/Vacation"] false
          = Matched [s["album/Vacation"]; s["Vacation"]] s["album/Vacation/"] p)
  /\ (forall t name root itemPath,
       DirPatterns.absPathOf root itemPath = kindName t ++ slash :: name ->
       noSlash name = true ->
       length root <= length (DirPatterns.absPathOf root itemPath) ->
       DirPatterns.match_ patterns root itemPath true = NoMatch).
Proof.
  split; [reflexivity|]. split; [eexists; split; reflexivity|].
  intros t name root itemPath Habs Hname Hlen.
  rewrite match_in_range by exact Hlen. rewrite Habs.
  apply matchLoop_none; [apply patterns_are_compiled|].
  intros q Hq Hfile. apply In_nth_error in Hq as [i Hi].
  rule_cases i Hi; try discriminate Hfile; unfold submatch; cbn [match_re].
  - now apply (item_needs_two_segments AlbumContainerType).
  - now apply (item_needs_two_segments PlaylistContainerType).
Qed.

Lemma match_collection_as_file_witness :
  DirPatterns.match_ patterns s["playlist"] s["Road trip"] true = NoMatch.
Proof.
  destruct match_collection_as_file as (_ & _ & H).
  apply (H PlaylistContainerType s["Road trip"]); [reflexivity|reflexivity|].
  cbn. lia.
Defined.

(* ================================================================== *)
(** ** Beyond the claims: paths, the layout, the operations, [NewFs] *)

Lemma str_eqb_spec a b : reflect (a = b) (str_eqb a b).
Proof. unfold str_eqb. destruct (list_eq_dec ascii_dec a b); now constructor. Qed.

Lemma split_cons_inv s : exists e es, Path.split s = e :: es.
Proof.
  induction s as [|c s IH]; cbn; [now eexists _, _|].
  destruct (Ascii.eqb c slash); [now eexists _, _|].
  destruct IH as (e & es & ->). now eexists _, _.
Qed.

Lemma split_slashFree s : Forall (fun e => slashFree e = true) (Path.split s).
Proof.
  induction s as [|c s IH]; cbn; [repeat constructor|].
  destruct (Ascii.eqb c slash) eqn:E; [constructor; [reflexivity|exact IH]|].
  destruct (Path.split s) as [|e es]; [repeat constructor; cbn; now rewrite E|].
  inversion IH; subst. constructor; [|assumption]. cbn. now rewrite E.
Qed.

Lemma split_app_slash a b :
  Path.split (a ++ slash :: b) = Path.split a ++ Path.split b.
Proof.
  induction a as [|c a IH]; cbn; [reflexivity|].
  destruct (Ascii.eqb c slash); [now rewrite IH|].
  rewrite IH. destruct (split_cons_inv a) as (e & es & ->). reflexivity.
Qed.

Lemma split_slashFree_elem e : slashFree e = true -> Path.split e = [e].
Proof.
  induction e as [|c e IH]; cbn; [reflexivity|].
  intros H. apply andb_prop in H as [Hc He].
  apply negb_true_iff in Hc. rewrite Hc, (IH He). reflexivity.
Qed.

Lemma joinElems_cons2 x y l :
  Path.joinElems (x :: y :: l) = x ++ slash :: Path.joinElems (y :: l).
Proof. reflexivity. Qed.

Lemma split_joinElems es :
  es <> [] -> Forall (fun e => slashFree e = true) es ->
  Path.split (Path.joinElems es) = es.
Proof.
  induction es as [|e es IH]; [contradiction|]. intros _ H.
  inversion H as [|? ? He Hes]; subst.
  destruct es as [|e' es]; [now apply split_slashFree_elem|].
  rewrite joinElems_cons2, split_app_slash, split_slashFree_elem by assumption.
  cbn [app]. f_equal. apply IH; [discriminate|assumption].
Qed.

Lemma joinElems_split s : Path.joinElems (Path.split s) = s.
Proof.
  induction s as [|c s IH]; cbn [Path.split]; [reflexivity|].
  destruct (split_cons_inv s) as (e & es & E). rewrite E in *.
  destruct (Ascii.eqb_spec c slash) as [->|_].
  - rewrite joinElems_cons2. cbn [app]. now rewrite IH.
  - destruct es as [|e' es].
    + cbn in *. now rewrite IH.
    + rewrite !joinElems_cons2 in *. cbn [app]. now rewrite IH.
Qed.

Lemma realElem_spec e :
  realElem e = true <->
  e <> [] /\ e <> s["."] /\ e <> s[".."] /\ slashFree e = true.
Proof.
  unfold realElem, slashFree.
  destruct (str_eqb_spec e []), (str_eqb_spec e s["."]), (str_eqb_spec e s[".."]);
    cbn; try tauto; intuition congruence.
Qed.

Lemma cleanStep_real rooted b e :
  realElem e = true ->
  Path.cleanStep rooted b e = {| Path.out := e :: Path.out b; Path.dotdot := Path.dotdot b |}.
Proof.
  intros H. apply realElem_spec in H as (H0 & H1 & H2 & _).
  unfold Path.cleanStep.
  destruct (str_eqb_spec e []); [contradiction|].
  destruct (str_eqb_spec e s["."]); [contradiction|].
  destruct (str_eqb_spec e s[".."]); [contradiction|reflexivity].
Qed.

Lemma cleanStep_skip rooted b e :
  slashFree e = true -> e <> s[".."] -> realElem e = false ->
  Path.cleanStep rooted b e = b.
Proof.
  intros Hs Hd Hr. unfold Path.cleanStep.
  destruct (str_eqb_spec e []); [reflexivity|].
  destruct (str_eqb_spec e s["."]); [reflexivity|].
  exfalso. assert (realElem e = true) by (apply realElem_spec; tauto). congruence.
Qed.

(** Elements without a parent step: the real ones are appended. *)
Lemma fold_cleanStep_forward rooted xs b :
  Forall (fun e => slashFree e = true /\ e <> s[".."]) xs ->
  fold_left (Path.cleanStep rooted) xs b
  = {| Path.out := rev (filter realElem xs) ++ Path.out b;
       Path.dotdot := Path.dotdot b |}.
Proof.
  intros H. revert b. induction H as [|e xs [Hs Hd] _ IH]; intros b; cbn [fold_left filter].
  - now destruct b.
  - rewrite IH. destruct (realElem e) eqn:Hr.
    + rewrite cleanStep_real by assumption. cbn [Path.out Path.dotdot rev].
      now rewrite <- app_assoc.
    + now rewrite cleanStep_skip.
Qed.

Lemma realElem_forward e : realElem e = true -> slashFree e = true /\ e <> s[".."].
Proof. intros H. apply realElem_spec in H. tauto. Qed.

Lemma filter_all (A : Type) (f : A -> bool) l : forallb f l = true -> filter f l = l.
Proof.
  induction l as [|x l IH]; cbn; [reflexivity|].
  intros H. apply andb_prop in H as [-> H]. now rewrite IH.
Qed.

Lemma fold_cleanStep_real rooted rs b :
  forallb realElem rs = true ->
  fold_left (Path.cleanStep rooted) rs b
  = {| Path.out := rev rs ++ Path.out b; Path.dotdot := Path.dotdot b |}.
Proof.
  intros H. rewrite fold_cleanStep_forward, filter_all; auto.
  apply Forall_forall. intros e He. apply realElem_forward.
  rewrite forallb_forall in H. auto.
Qed.

(** The elements of a cleaned relative path are written as they are. *)
Lemma fold_cleanStep_clean es b :
  cleanElems es = true -> Path.dotdot b = length (Path.out b) ->
  exists k, fold_left (Path.cleanStep false) es b
            = {| Path.out := rev es ++ Path.out b; Path.dotdot := k |}.
Proof.
  revert b. induction es as [|e es IH]; intros b Hes Hb.
  - exists (Path.dotdot b). now destruct b.
  - cbn [cleanElems] in Hes. destruct (str_eqb_spec e s[".."]) as [->|He].
    + cbn [fold_left]. unfold Path.cleanStep at 2. cbn [str_eqb].
      replace (str_eqb s[".."] []) with false by reflexivity.
      replace (str_eqb s[".."] s["."]) with false by reflexivity.
      replace (str_eqb s[".."] s[".."]) with true by reflexivity.
      rewrite Hb, Nat.ltb_irrefl.
      destruct (IH {| Path.out := s[".."] :: Path.out b;
                      Path.dotdot := S (length (Path.out b)) |} Hes eq_refl) as [k Hk].
      exists k. rewrite Hk. cbn [Path.out rev]. now rewrite <- app_assoc.
    + exists (Path.dotdot b). now apply fold_cleanStep_real.
Qed.

Lemma cleanElems_elems es :
  cleanElems es = true -> Forall (fun e => e <> [] /\ slashFree e = true) es.
Proof.
  induction es as [|e es IH]; [constructor|]. cbn [cleanElems].
  destruct (str_eqb_spec e s[".."]) as [->|He]; intros H.
  - constructor; [split; [discriminate|reflexivity]|auto].
  - apply Forall_forall. intros x Hx. rewrite forallb_forall in H.
    specialize (H x Hx). apply realElem_spec in H. tauto.
Qed.

Lemma cleanElems_app es rs :
  cleanElems es = true -> forallb realElem rs = true -> cleanElems (es ++ rs) = true.
Proof.
  intros Hes Hrs. induction es as [|e es IH]; cbn [app].
  - destruct rs as [|r rs]; [reflexivity|]. cbn [cleanElems].
    destruct (str_eqb_spec r s[".."]) as [->|_]; [|exact Hrs].
    cbn in Hrs. discriminate.
  - cbn [cleanElems] in *. destruct (str_eqb e s[".."]); [auto|].
    rewrite app_comm_cons, forallb_app. now rewrite Hes.
Qed.

Lemma joinElems_app es rs :
  es <> [] -> rs <> [] ->
  Path.joinElems (es ++ rs) = Path.joinElems es ++ slash :: Path.joinElems rs.
Proof.
  intros Hes Hrs. induction es as [|e es IH]; [contradiction|].
  destruct es as [|e' es].
  - destruct rs as [|r rs]; [contradiction|]. reflexivity.
  - cbn [app] in *. rewrite !joinElems_cons2, IH by discriminate.
    now rewrite <- app_assoc.
Qed.

Lemma rev_joinElems es :
  rev (Path.joinElems es) = Path.joinElems (map (@rev ascii) (rev es)).
Proof.
  induction es as [|e es IH]; [reflexivity|].
  destruct es as [|e' es]; [reflexivity|].
  rewrite joinElems_cons2, rev_app_distr.
  change (rev (slash :: Path.joinElems (e' :: es)))
    with (rev (Path.joinElems (e' :: es)) ++ [slash]).
  rewrite IH, <- app_assoc.
  change (rev (e :: e' :: es)) with (rev (e' :: es) ++ [e]).
  rewrite map_app. cbn [map app].
  rewrite joinElems_app; [reflexivity| |discriminate].
  cbn [rev]. rewrite map_app. cbn [map].
  intros E. apply app_eq_nil in E as [_ E]. discriminate.
Qed.

Lemma joinElems_hd e es :
  solid e -> hd_error (Path.joinElems (e :: es)) <> Some slash.
Proof.
  intros [He Hs]. destruct e as [|c e]; [contradiction|].
  cbn in Hs. apply andb_prop in Hs as [Hc _].
  destruct es; cbn; intros [= ->]; discriminate.
Qed.

Lemma joinElems_nonempty e es : e <> [] -> Path.joinElems (e :: es) <> [].
Proof. destruct e; [contradiction|]. destruct es; discriminate. Qed.

Lemma solid_rev e : solid e -> solid (rev e).
Proof.
  intros [He Hs]. split.
  - intros E. apply He. now rewrite <- (rev_involutive e), E.
  - unfold slashFree in *. rewrite forallb_forall in *.
    intros x Hx. apply Hs. now apply in_rev.
Qed.

Lemma joinElems_last es :
  Forall solid es -> last_error (Path.joinElems es) <> Some slash.
Proof.
  intros H. unfold last_error. rewrite rev_joinElems.
  destruct (rev es) as [|e l] eqn:E; [discriminate|]. cbn [map].
  apply joinElems_hd, solid_rev.
  rewrite Forall_forall in H. apply H, in_rev. rewrite E. now left.
Qed.

Lemma joinElems_first es :
  Forall solid es -> hd_error (Path.joinElems es) <> Some slash.
Proof.
  intros H. destruct es as [|e es]; [discriminate|].
  inversion H; subst. now apply joinElems_hd.
Qed.

Lemma TrimLeft_id s : hd_error s <> Some slash -> Strings.TrimLeft s = s.
Proof.
  destruct s as [|c s]; [reflexivity|]. cbn.
  destruct (Ascii.eqb_spec c slash) as [->|_]; [intros H; now destruct H|reflexivity].
Qed.

Lemma TrimRight_id s : last_error s <> Some slash -> Strings.TrimRight s = s.
Proof.
  intros H. unfold Strings.TrimRight. rewrite TrimLeft_id by exact H.
  apply rev_involutive.
Qed.

Lemma Trim_id s :
  hd_error s <> Some slash -> last_error s <> Some slash -> Strings.Trim s = s.
Proof.
  intros Hh Hl. unfold Strings.Trim. rewrite TrimLeft_id by exact Hh.
  now apply TrimRight_id.
Qed.

Lemma Trim_joinElems es : Forall solid es -> Strings.Trim (Path.joinElems es) = Path.joinElems es.
Proof. intros H. apply Trim_id; [now apply joinElems_first|now apply joinElems_last]. Qed.

Lemma cleanElems_solid es : cleanElems es = true -> Forall solid es.
Proof. exact (@cleanElems_elems es). Qed.

Lemma real_solid rs : forallb realElem rs = true -> Forall solid rs.
Proof.
  intros H. apply Forall_forall. intros e He. rewrite forallb_forall in H.
  specialize (H e He). apply realElem_spec in H. unfold solid. tauto.
Qed.

Lemma filter_real_forallb xs : forallb realElem (filter realElem xs) = true.
Proof.
  apply forallb_forall. intros e He. now apply filter_In in He.
Qed.

Lemma split_forward p :
  noParentStep p = true ->
  Forall (fun e => slashFree e = true /\ e <> s[".."]) (Path.split p).
Proof.
  intros H. apply Forall_forall. intros e He. split.
  - pose proof (split_slashFree p) as Hs. rewrite Forall_forall in Hs. auto.
  - unfold noParentStep in H. rewrite forallb_forall in H. specialize (H e He).
    destruct (str_eqb_spec e s[".."]); [discriminate|assumption].
Qed.

(** Cleaning a cleaned relative path followed by a path without parent step
    appends the real elements of that path. *)
Lemma Clean_join_clean es p :
  es <> [] -> cleanElems es = true -> noParentStep p = true ->
  Path.Clean (Path.joinElems es ++ slash :: p) = Path.joinElems (es ++ realElems p).
Proof.
  intros Hne Hes Hp.
  pose proof (cleanElems_solid es Hes) as Hsolid.
  destruct es as [|e es]; [contradiction|].
  pose proof (joinElems_hd es (Forall_inv Hsolid)) as Hhd.
  pose proof (joinElems_nonempty es (proj1 (Forall_inv Hsolid))) as Hnil.
  unfold Path.Clean.
  destruct (Path.joinElems (e :: es)) as [|c t] eqn:EJ; [contradiction|].
  cbn [app]. destruct (Ascii.eqb_spec c slash) as [->|_]; [now destruct Hhd|].
  change (c :: t ++ slash :: p) with ((c :: t) ++ slash :: p).
  rewrite <- EJ, split_app_slash, split_joinElems; [|discriminate|].
  2:{ eapply Forall_impl; [|exact Hsolid]. intros a [_ Ha]. exact Ha. }
  rewrite fold_left_app.
  destruct (fold_cleanStep_clean (e :: es)
              {| Path.out := []; Path.dotdot := 0 |} Hes eq_refl) as [k ->].
  rewrite fold_cleanStep_forward by now apply split_forward.
  cbn [Path.out]. rewrite app_nil_r, <- rev_app_distr, rev_involutive.
  fold (realElems p). cbn [app].
  destruct (Path.joinElems (e :: es ++ realElems p)) eqn:E; [|reflexivity].
  exfalso. revert E. apply joinElems_nonempty, (Forall_inv Hsolid).
Qed.

Lemma Join_two root p :
  Path.Join [root; p] =
  match root, p with
  | [], [] => []
  | [], _ :: _ => Path.Clean p
  | _ :: _, _ => Path.Clean (root ++ slash :: p)
  end.
Proof.
  unfold Path.Join. cbn [fold_left Nat.add].
  destruct root as [|c root]; destruct p as [|d p]; try reflexivity.
Qed.

Lemma absPath_normal es itemPath :
  es <> [] -> cleanElems es = true ->
  noParentStep (Strings.Trim itemPath) = true ->
  DirPatterns.absPathOf (Path.joinElems es) itemPath
  = Path.joinElems (es ++ realElems (Strings.Trim itemPath)).
Proof.
  intros Hne Hes Hp. unfold DirPatterns.absPathOf. rewrite Join_two.
  destruct (Path.joinElems es) eqn:E.
  - exfalso. destruct es as [|e es]; [contradiction|]. revert E.
    apply joinElems_nonempty.
    exact (proj1 (Forall_inv (cleanElems_solid _ Hes))).
  - rewrite <- E. now apply Clean_join_clean.
Qed.

(** Cleaning a relative path without parent step keeps its real elements. *)
Lemma Clean_forward p :
  p <> [] -> hd_error p <> Some slash -> noParentStep p = true ->
  Path.Clean p = match Path.joinElems (realElems p) with
                 | [] => s["."]
                 | c :: t => c :: t
                 end.
Proof.
  intros Hne Hhd Hp. destruct p as [|c t]; [contradiction|].
  unfold Path.Clean. destruct (Ascii.eqb_spec c slash) as [->|_]; [now destruct Hhd|].
  rewrite fold_cleanStep_forward by now apply split_forward.
  cbn [Path.out]. rewrite app_nil_r, rev_involutive. unfold realElems.
  now destruct (Path.joinElems _).
Qed.

Lemma cleanElems_repeat k rs :
  forallb realElem rs = true -> cleanElems (repeat s[".."] k ++ rs) = true.
Proof.
  intros H. induction k as [|k IH]; cbn [repeat app].
  - now apply (cleanElems_app []).
  - exact IH.
Qed.

Lemma cleanStep_bufOk rooted b e :
  slashFree e = true -> bufOk rooted b -> bufOk rooted (Path.cleanStep rooted b e).
Proof.
  intros Hs (qs & Hout & Hqs). unfold Path.cleanStep.
  destruct (str_eqb_spec e []); [now exists qs|].
  destruct (str_eqb_spec e s["."]); [now exists qs|].
  destruct (str_eqb_spec e s[".."]) as [->|Hd].
  - destruct (Nat.ltb_spec (Path.dotdot b) (length (Path.out b))) as [Hlt|Hge].
    + rewrite Hout, length_app, repeat_length in Hlt.
      destruct qs as [|q qs]; [cbn in Hlt; lia|].
      exists qs. cbn [Path.out Path.dotdot]. rewrite Hout. split; [reflexivity|].
      cbn in Hqs. now apply andb_prop in Hqs.
    + destruct rooted; [now exists qs|].
      rewrite Hout, length_app, repeat_length in Hge.
      destruct qs as [|q qs]; [|cbn in Hge; lia].
      exists []. cbn [Path.out Path.dotdot app]. split; [|reflexivity].
      rewrite Hout. cbn [app]. now rewrite repeat_length.
  - exists (e :: qs). cbn [Path.out Path.dotdot]. split; [now rewrite Hout|].
    cbn [forallb]. rewrite Hqs, andb_true_r. apply realElem_spec. tauto.
Qed.

Lemma fold_cleanStep_bufOk rooted xs b :
  Forall (fun e => slashFree e = true) xs -> bufOk rooted b ->
  bufOk rooted (fold_left (Path.cleanStep rooted) xs b).
Proof.
  intros H. revert b. induction H as [|e xs He _ IH]; intros b Hb; [exact Hb|].
  cbn [fold_left]. apply IH. now apply cleanStep_bufOk.
Qed.

(** The shape of a cleaned path. *)
Lemma Clean_shape path :
  exists es, cleanElems es = true
    /\ (Path.Clean path = slash :: Path.joinElems es
        \/ Path.Clean path = Path.joinElems es
        \/ Path.Clean path = s["."]).
Proof.
  destruct path as [|c t]; [exists []; auto|].
  unfold Path.Clean.
  destruct (@fold_cleanStep_bufOk (Ascii.eqb c slash) (Path.split (c :: t))
              {| Path.out := []; Path.dotdot := 0 |} (split_slashFree _))
    as (qs & Hout & Hqs); [now exists []|].
  set (b := fold_left _ _ _) in *.
  exists (repeat s[".."] (Path.dotdot b) ++ rev qs).
  split.
  - apply cleanElems_repeat. rewrite forallb_forall in *.
    intros x Hx. apply Hqs. now apply in_rev.
  - rewrite Hout, rev_app_distr, rev_repeat.
    destruct (Ascii.eqb c slash); [now left|].
    destruct (Path.joinElems _); auto.
Qed.

Lemma normalizeRoot_normal root : normalRoot (normalizeRoot root).
Proof.
  unfold normalizeRoot.
  destruct (Clean_shape root) as (es & Hes & [E|[E|E]]); rewrite E.
  - assert (Ht : Strings.Trim (slash :: Path.joinElems es) = Path.joinElems es).
    { unfold Strings.Trim. cbn [Strings.TrimLeft].
      replace (Ascii.eqb slash slash) with true by reflexivity.
      apply Trim_joinElems, cleanElems_solid, Hes. }
    rewrite Ht. destruct (_ || _); [now exists []|now exists es].
  - rewrite Trim_joinElems by apply cleanElems_solid, Hes.
    destruct (_ || _); [now exists []|now exists es].
  - now exists [].
Qed.

Lemma normalRoot_self root :
  normalRoot root -> DirPatterns.absPathOf root [] = root.
Proof.
  intros (es & Hes & ->). destruct es as [|e es]; [reflexivity|].
  rewrite absPath_normal by (try discriminate; auto).
  cbn. now rewrite app_nil_r.
Qed.

Lemma prefixOf_self root : DirPatterns.prefixOf root root = [].
Proof. unfold DirPatterns.prefixOf. now rewrite skipn_all. Qed.

Lemma Trim_slash_joinElems rs :
  Forall solid rs ->
  Strings.Trim (slash :: Path.joinElems rs) = Path.joinElems rs.
Proof.
  intros H. unfold Strings.Trim. cbn [Strings.TrimLeft].
  replace (Ascii.eqb slash slash) with true by reflexivity.
  now apply Trim_joinElems.
Qed.

Lemma prefixOf_below root rs :
  rs <> [] -> Forall solid rs ->
  DirPatterns.prefixOf root (root ++ slash :: Path.joinElems rs)
  = Path.joinElems rs ++ [slash].
Proof.
  intros Hne Hrs. unfold DirPatterns.prefixOf.
  rewrite skipn_app, skipn_all, Nat.sub_diag. cbn [app skipn].
  rewrite Trim_slash_joinElems by assumption.
  destruct rs as [|r rs]; [contradiction|].
  destruct (Path.joinElems (r :: rs)) eqn:E; [|reflexivity].
  exfalso. revert E. apply joinElems_nonempty. exact (proj1 (Forall_inv Hrs)).
Qed.

Lemma dot_matches_nothing prefix w :
  DirPatterns.matchLoop patterns s["."] prefix w = NoMatch.
Proof. destruct w; reflexivity. Qed.

Lemma realElems_solid p : Forall solid (realElems p).
Proof. apply real_solid, filter_real_forallb. Qed.

(** The joined path of a normal root and a request without parent step. *)
Lemma absPath_forward root itemPath :
  normalRoot root -> noParentStep (Strings.Trim itemPath) = true ->
  let rel := Path.joinElems (realElems (Strings.Trim itemPath)) in
  let absPath := DirPatterns.absPathOf root itemPath in
  (absPath = s["."] /\ root = [])
  \/ (absPath = root /\ DirPatterns.prefixOf root absPath = [] /\ rel = [])
  \/ (absPath = root ++ slash :: rel /\ root <> [] /\ rel <> []
      /\ DirPatterns.prefixOf root absPath = rel ++ [slash])
  \/ (absPath = rel /\ root = [] /\ rel <> []
      /\ DirPatterns.prefixOf root absPath = rel ++ [slash]).
Proof.
  intros (es & Hes & ->) Hp rel absPath. subst absPath.
  pose proof (realElems_solid (Strings.Trim itemPath)) as Hsolid.
  destruct es as [|e es].
  - cbn [Path.joinElems]. unfold DirPatterns.absPathOf. rewrite Join_two.
    destruct (Strings.Trim itemPath) as [|c t] eqn:Et.
    + right. left. repeat split; reflexivity.
    + rewrite Clean_forward; [|discriminate| |exact Hp].
      2:{ rewrite <- Et. apply Trim_spec. }
      fold rel. destruct rel as [|a l] eqn:Er; [now left|].
      right. right. right. repeat split; try discriminate.
      unfold DirPatterns.prefixOf. cbn [length skipn]. rewrite <- Er.
      unfold rel. rewrite Trim_joinElems by exact Hsolid.
      fold rel. now rewrite Er.
  - rewrite absPath_normal by (try discriminate; assumption).
    subst rel. destruct (realElems (Strings.Trim itemPath)) as [|r rs].
    + right. left. rewrite app_nil_r.
      split; [reflexivity|]. split; [apply prefixOf_self|reflexivity].
    + right. right. left.
      rewrite joinElems_app by discriminate.
      assert (Hroot : Path.joinElems (e :: es) <> []).
      { apply joinElems_nonempty.
        exact (proj1 (Forall_inv (cleanElems_solid _ Hes))). }
      assert (Hrel : Path.joinElems (r :: rs) <> []).
      { apply joinElems_nonempty. exact (proj1 (Forall_inv Hsolid)). }
      repeat split; try assumption.
      apply prefixOf_below; [discriminate|assumption].
Qed.

(** On a normal root and a requested path without parent step the slice
    expression of [match] is in range. *)
Lemma forward_in_range root itemPath :
  normalRoot root -> noParentStep (Strings.Trim itemPath) = true ->
  length root <= length (DirPatterns.absPathOf root itemPath).
Proof.
  intros Hroot Hp.
  pose proof (@absPath_forward root itemPath Hroot Hp) as Hshape. cbv zeta in Hshape.
  destruct Hshape as [[E ->]|[[E _]|[[E _]|[E [-> _]]]]]; rewrite E;
    try rewrite length_app; cbn [length]; lia.
Qed.

(** X1.  On a normal root (the roots [NewFs] leaves) and a requested path
    without parent step, [match] does not panic, and the prefix it returns
    with a rule is the cleaned requested path followed by one separator, or
    empty when the request is for the root itself. *)
Theorem match_forward_request root itemPath w :
  normalRoot root -> noParentStep (Strings.Trim itemPath) = true ->
  DirPatterns.match_ patterns root itemPath w <> MatchPanic
  /\ forall m prefix p,
       DirPatterns.match_ patterns root itemPath w = Matched m prefix p ->
       let rel := Path.joinElems (realElems (Strings.Trim itemPath)) in
       prefix = match rel with [] => [] | _ :: _ => rel ++ [slash] end
       /\ DirPatterns.absPathOf root itemPath
          = match root, rel with
            | [], _ => rel
            | _ :: _, [] => root
            | _ :: _, _ :: _ => root ++ slash :: rel
            end.
Proof.
  intros Hroot Hp.
  pose proof (@absPath_forward root itemPath Hroot Hp) as Hshape. cbv zeta in Hshape.
  split.
  - rewrite match_panics_iff. pose proof (forward_in_range itemPath Hroot Hp). lia.
  - intros m prefix p H rel. apply match_Matched in H as [_ H].
    pose proof H as Hloop. apply matchLoop_Matched in H as [-> _].
    fold rel in Hshape.
    destruct Hshape as [[E ->]|[(E & Hpre & Hrel)|[(E & Hr & Hrel & Hpre)|(E & -> & Hrel & Hpre)]]].
    + rewrite E in Hloop. now rewrite dot_matches_nothing in Hloop.
    + rewrite Hpre, Hrel, E. split; [reflexivity|]. now destruct root.
    + rewrite Hpre, E. destruct rel; [contradiction|].
      destruct root; [contradiction|]. split; reflexivity.
    + rewrite Hpre, E. destruct rel; [contradiction|]. split; reflexivity.
Qed.

Lemma match_forward_request_witness :
  DirPatterns.match_ patterns s["album"] s["/Vacation/./"] false <> MatchPanic.
Proof.
  apply (@match_forward_request s["album"] s["/Vacation/./"] false);
    [exists [s["album"]]; split; reflexivity|reflexivity].
Defined.

Lemma noSlash_slashFree s : noSlash s = slashFree s.
Proof.
  unfold noSlash, slashFree. induction s as [|a s IH]; [reflexivity|].
  cbn [forallb]. rewrite IH. f_equal. cbn. now rewrite orb_false_r.
Qed.

Lemma pathSplit_slashFree b : slashFree b = true -> pathSplit b = ([], b).
Proof.
  induction b as [|c b IH]; [reflexivity|]. intros H.
  cbn in H. apply andb_prop in H as [Hc Hb]. apply negb_true_iff in Hc.
  cbn [pathSplit]. now rewrite (IH Hb), Hc.
Qed.

Lemma pathSplit_app_slash a b :
  slashFree b = true -> pathSplit (a ++ slash :: b) = (a ++ [slash], b).
Proof.
  intros Hb. induction a as [|c a IH]; cbn [app pathSplit].
  - rewrite (pathSplit_slashFree _ Hb). reflexivity.
  - rewrite IH. destruct (Ascii.eqb c slash); [reflexivity|].
    now destruct a.
Qed.

Lemma pathSplit_spec s :
  s = fst (pathSplit s) ++ snd (pathSplit s)
  /\ slashFree (snd (pathSplit s)) = true
  /\ (fst (pathSplit s) = []
      \/ fst (pathSplit s) = removelast (fst (pathSplit s)) ++ [slash]).
Proof.
  induction s as [|c s (IH1 & IH2 & IH3)]; [cbn; auto|].
  cbn [pathSplit]. destruct (pathSplit s) as [d f]. cbn [fst snd] in *.
  destruct (Ascii.eqb_spec c slash) as [->|Hc].
  - cbn [fst snd]. repeat split; [now rewrite IH1 at 1|assumption|].
    right. destruct IH3 as [->|E]; [reflexivity|].
    rewrite E at 1. destruct d; [discriminate|].
    cbn [removelast]. reflexivity.
  - destruct d as [|x d]; cbn [fst snd].
    + repeat split; [now rewrite IH1 at 1| |now left].
      unfold slashFree in *. cbn [forallb]. rewrite IH2.
      apply Ascii.eqb_neq in Hc. now rewrite Hc.
    + repeat split; [now rewrite IH1 at 1|assumption|].
      right. destruct IH3 as [E|E]; [discriminate|].
      rewrite E at 1. reflexivity.
Qed.

Lemma stripPrefix_app pre s : stripPrefix pre (pre ++ s) = Some s.
Proof.
  induction pre as [|a pre IH]; [reflexivity|].
  cbn. now rewrite Ascii.eqb_refl.
Qed.

Lemma stripPrefix_inv pre s r : stripPrefix pre s = Some r -> s = pre ++ r.
Proof.
  revert s. induction pre as [|a pre IH]; intros s; cbn.
  - now intros [= ->].
  - destruct s as [|b s]; [discriminate|].
    destruct (Ascii.eqb_spec a b) as [->|_]; [|discriminate].
    intros H. now rewrite (IH _ H).
Qed.

Lemma collection_rule t :
  exists p, nth_error patterns (collectionIndex t) = Some p
    /\ match_re p = Some {| Regexp.prog := collectionProg t; Regexp.numSubexp := 1 |}
    /\ isFile p = false /\ canUpload p = false /\ canMkdir p = true
    /\ toEntries p = Some (fun f prefix m => index m 1 (listPhotos f prefix t)).
Proof. destruct t; eexists; repeat split; reflexivity. Qed.

Lemma kind_root_rule t :
  exists p, nth_error patterns (kindRootIndex t) = Some p
    /\ isFile p = false /\ canUpload p = false /\ canMkdir p = false
    /\ toEntries p = Some (fun f prefix _ => listContainers f prefix t).
Proof. destruct t; eexists; repeat split; reflexivity. Qed.

Lemma run_group_plus rest n c greedy s pos cap :
  Regexp.run (Regexp.InstCapture n :: Regexp.InstPlus c greedy :: rest) s pos cap
  = Regexp.plusLoop (Regexp.run rest) c greedy s pos (Regexp.setCap cap n pos).
Proof. reflexivity. Qed.

(** The collection expression on [kind/name]. *)
Lemma collection_submatch t name :
  name <> [] -> noNewline name = true ->
  let absPath := kindName t ++ slash :: name in
  Regexp.FindStringSubmatch
    {| Regexp.prog := collectionProg t; Regexp.numSubexp := 1 |} absPath
  = Some [absPath; name].
Proof.
  intros Hne Hnl absPath.
  unfold Regexp.FindStringSubmatch, collectionProg.
  cbn [Regexp.prog Regexp.numSubexp]. rewrite search_anchored.
  assert (Eabs : absPath = (kindName t ++ [slash]) ++ name).
  { unfold absPath. now rewrite <- app_assoc. }
  rewrite Eabs at 1. rewrite run_literal, run_group_plus.
  rewrite plus_to_end. destruct name as [|c name]; [contradiction|].
  unfold noNewline in Hnl. rewrite Hnl.
  cbn [Nat.mul Nat.add repeat Regexp.setCap seq map].
  unfold Regexp.group. cbn [Nat.mul Nat.add nth].
  set (k := kindName t ++ [slash]) in *.
  f_equal. f_equal; [|f_equal].
  - apply (slice_middle [] absPath []); [now rewrite app_nil_r|reflexivity|].
    rewrite Eabs, !length_app. cbn [length]. lia.
  - apply (slice_middle k (c :: name) []); [now rewrite app_nil_r|reflexivity|lia].
Qed.

Lemma collection_inv t rest m :
  Regexp.FindStringSubmatch
    {| Regexp.prog := collectionProg t; Regexp.numSubexp := 1 |}
    (kindName t ++ slash :: rest) = Some m ->
  rest <> [] /\ noNewline rest = true.
Proof.
  unfold Regexp.FindStringSubmatch, collectionProg.
  cbn [Regexp.prog Regexp.numSubexp]. rewrite search_anchored.
  destruct (Regexp.run _ _ 0 _) as [r|] eqn:R; [intros _|discriminate].
  replace (kindName t ++ slash :: rest) with ((kindName t ++ [slash]) ++ rest) in R
    by now rewrite <- app_assoc.
  rewrite run_literal, run_group_plus, plus_to_end in R.
  destruct rest as [|c rest]; [discriminate|]. split; [discriminate|].
  unfold noNewline. now destruct (forallb _ (c :: rest)).
Qed.

(** When the lazy group of an item expression succeeds, the text is cut at
    its last separator. *)
Lemma lazy_group_inv s pos cap r :
  Regexp.plusLoop (Regexp.run itemTail) Regexp.ClsAnyNotNL false s pos cap = Some r ->
  exists mid last, s = mid ++ slash :: last
    /\ mid <> [] /\ noNewline mid = true /\ last <> [] /\ noSlash last = true.
Proof.
  revert pos. induction s as [|a s IH]; intros pos; [discriminate|].
  cbn [Regexp.plusLoop].
  destruct (Regexp.classMatches Regexp.ClsAnyNotNL a) eqn:Ha; [|discriminate].
  rewrite itemTail_run.
  destruct s as [|b t].
  - discriminate.
  - destruct (Ascii.eqb_spec b slash) as [->|Hb].
    + destruct t as [|c t].
      * cbn. discriminate.
      * destruct (forallb (Regexp.classMatches notSlash) (c :: t)) eqn:Hns.
        -- intros _. exists [a], (c :: t). repeat split; try discriminate; auto.
           unfold noNewline. cbn [forallb]. now rewrite Ha.
        -- intros H. apply IH in H as (mid & last & E & Hmid & Hnl & Hlast & Hl).
           exists (a :: mid), last. rewrite E. repeat split; try discriminate; auto.
           unfold noNewline in *. cbn [forallb]. now rewrite Ha.
    + intros H. apply IH in H as (mid & last & E & Hmid & Hnl & Hlast & Hl).
      exists (a :: mid), last. rewrite E. repeat split; try discriminate; auto.
      unfold noNewline in *. cbn [forallb]. now rewrite Ha.
Qed.

Lemma item_inv t rest m :
  Regexp.FindStringSubmatch
    {| Regexp.prog := itemProg t; Regexp.numSubexp := 2 |}
    (kindName t ++ slash :: rest) = Some m ->
  exists mid last, rest = mid ++ slash :: last
    /\ mid <> [] /\ noNewline mid = true /\ last <> [] /\ noSlash last = true.
Proof.
  unfold Regexp.FindStringSubmatch, itemProg.
  cbn [Regexp.prog Regexp.numSubexp]. rewrite search_anchored.
  destruct (Regexp.run _ _ 0 _) as [r|] eqn:R; [intros _|discriminate].
  replace (kindName t ++ slash :: rest) with ((kindName t ++ [slash]) ++ rest) in R
    by now rewrite <- app_assoc.
  rewrite run_literal, run_group_plus in R.
  now apply lazy_group_inv in R.
Qed.

(** No directory rule before the collection rule of a kind matches a path
    below that kind. *)
Lemma no_earlier_dir_rule t rest j q :
  j < collectionIndex t -> nth_error patterns j = Some q -> isFile q = false ->
  submatch q (kindName t ++ slash :: rest) = None.
Proof.
  intros Hj Hq Hfile.
  destruct (submatch q _) as [m|] eqn:E; [exfalso|reflexivity].
  assert (Hm : ruleMatches q (kindName t ++ slash :: rest) = true)
    by (unfold ruleMatches; now rewrite E).
  destruct (rule_shape _ _ Hq Hm) as (qq & qn & Eqq & tq & Eq & Endq).
  destruct t; cbn in Hj; rule_cases j Hq; try discriminate Hfile; try lia;
    injection Eqq as <- <-; cbn in Eq, Endq;
    try specialize (Endq eq_refl); subst; discriminate Eq.
Qed.

(** A path of the layout is matched by its rule. *)
Lemma routed_matched w absPath i m :
  routed w absPath i m ->
  exists p, nth_error patterns i = Some p
    /\ forall prefix,
         DirPatterns.matchLoop patterns absPath prefix w = Matched m prefix p.
Proof.
  intros [|t|t name Hne Hnl|t mid last Hmid Hnl Hlast Hns].
  - eexists. split; [reflexivity|]. intros prefix. reflexivity.
  - destruct t; (eexists; split; [reflexivity|]; intros prefix; reflexivity).
  - destruct (collection_rule t) as (p & Hp & Hre & Hfile & _).
    exists p. split; [exact Hp|]. intros prefix.
    apply matchLoop_first with (i := collectionIndex t);
      auto using patterns_are_compiled.
    + unfold submatch. rewrite Hre. now apply collection_submatch.
    + intros j q. apply no_earlier_dir_rule.
  - destruct (item_rule t) as (p & Hp & Hre & Hfile & _).
    exists p. split; [exact Hp|]. intros prefix.
    apply matchLoop_first with (i := itemIndex t);
      auto using patterns_are_compiled.
    + unfold submatch. rewrite Hre. now apply item_submatch.
    + intros j q. apply no_earlier_file_rule.
Qed.

(** An item path is matched by the item rule of its kind. *)
Lemma item_path_matched t root itemPath mid last :
  DirPatterns.absPathOf root itemPath
    = kindName t ++ slash :: mid ++ slash :: last ->
  length root <= length (kindName t ++ slash :: mid ++ slash :: last) ->
  mid <> [] -> noNewline mid = true -> last <> [] -> noSlash last = true ->
  exists p,
    nth_error patterns (itemIndex t) = Some p
    /\ DirPatterns.match_ patterns root itemPath true
       = Matched [kindName t ++ slash :: mid ++ slash :: last; mid; last]
                 (DirPatterns.prefixOf root
                    (kindName t ++ slash :: mid ++ slash :: last)) p.
Proof.
  intros Habs Hlen Hmid Hnl Hlast Hns.
  destruct (routed_matched (ItemPath t Hmid Hnl Hlast Hns)) as (p & Hp & H).
  exists p. split; [exact Hp|].
  rewrite match_in_range by (rewrite Habs; exact Hlen). rewrite Habs. apply H.
Qed.

Lemma submatch_collection t absPath m p :
  nth_error patterns (collectionIndex t) = Some p ->
  submatch p absPath = Some m ->
  routed false absPath (collectionIndex t) m.
Proof.
  intros Hp Hm.
  assert (Hr : ruleMatches p absPath = true) by (unfold ruleMatches; now rewrite Hm).
  destruct (rule_shape _ _ Hp Hr) as (q & n & Eq & rest & Eabs & _).
  destruct (collection_rule t) as (p' & Hp' & Hre & _).
  rewrite Hp in Hp'. injection Hp' as <-.
  rewrite Hre in Eq. injection Eq as <- <-.
  assert (E : absPath = kindName t ++ slash :: rest)
    by (rewrite Eabs; destruct t; reflexivity).
  unfold submatch in Hm. rewrite Hre, E in Hm.
  destruct (collection_inv _ _ Hm) as [Hne Hnl].
  rewrite collection_submatch in Hm by assumption. injection Hm as <-.
  rewrite E. now constructor.
Qed.

Lemma submatch_item t absPath m p :
  nth_error patterns (itemIndex t) = Some p ->
  submatch p absPath = Some m ->
  routed true absPath (itemIndex t) m.
Proof.
  intros Hp Hm.
  assert (Hr : ruleMatches p absPath = true) by (unfold ruleMatches; now rewrite Hm).
  destruct (rule_shape _ _ Hp Hr) as (q & n & Eq & rest & Eabs & _).
  destruct (item_rule t) as (p' & Hp' & Hre & _).
  rewrite Hp in Hp'. injection Hp' as <-.
  rewrite Hre in Eq. injection Eq as <- <-.
  assert (E : absPath = kindName t ++ slash :: rest)
    by (rewrite Eabs; destruct t; reflexivity).
  unfold submatch in Hm. rewrite Hre, E in Hm.
  destruct (item_inv _ _ Hm) as (mid & last & -> & Hmid & Hnl & Hlast & Hns).
  rewrite item_submatch in Hm by assumption. injection Hm as <-.
  rewrite E. now constructor.
Qed.

Lemma submatch_exact i p absPath m :
  nth_error patterns i = Some p -> submatch p absPath = Some m ->
  (i = 0 -> routed false absPath 0 m)
  /\ (forall t, i = kindRootIndex t -> routed false absPath i m).
Proof.
  intros Hp Hm.
  assert (Hr : ruleMatches p absPath = true) by (unfold ruleMatches; now rewrite Hm).
  destruct (rule_shape _ _ Hp Hr) as (q & n & Eq & rest & Eabs & Hend).
  split.
  - intros ->. injection Hp as <-. injection Eq as <- <-.
    cbn in Eabs, Hend. rewrite (Hend eq_refl) in Eabs. subst absPath.
    vm_compute in Hm. injection Hm as <-. constructor.
  - intros t ->. destruct t; injection Hp as <-; injection Eq as <- <-;
      cbn in Eabs, Hend; rewrite (Hend eq_refl) in Eabs; subst absPath;
      vm_compute in Hm; injection Hm as <-.
    + exact (KindPath AlbumContainerType).
    + exact (KindPath PlaylistContainerType).
Qed.

(** A rule returned by the loop was returned for a path of the layout. *)
Lemma matched_routed absPath prefix w m pre p :
  DirPatterns.matchLoop patterns absPath prefix w = Matched m pre p ->
  exists i, nth_error patterns i = Some p /\ routed w absPath i m.
Proof.
  intros H. apply matchLoop_Matched in H as (_ & i & Hi & Hw & Hm & _).
  exists i. split; [exact Hi|]. subst w.
  pose proof (@submatch_exact i p absPath m Hi Hm) as [H0 Hk].
  pose proof (fun t => @submatch_collection t absPath m p) as Hc.
  pose proof (fun t => @submatch_item t absPath m p) as Hit.
  destruct i as [|[|[|[|[|[|[|i]]]]]]].
  - replace (isFile p) with false by (now injection Hi as <-).
    now apply H0.
  - replace (isFile p) with false by (now injection Hi as <-).
    exact (Hk AlbumContainerType eq_refl).
  - replace (isFile p) with false by (now injection Hi as <-).
    exact (Hc AlbumContainerType Hi Hm).
  - replace (isFile p) with true by (now injection Hi as <-).
    exact (Hit AlbumContainerType Hi Hm).
  - replace (isFile p) with false by (now injection Hi as <-).
    exact (Hk PlaylistContainerType eq_refl).
  - replace (isFile p) with false by (now injection Hi as <-).
    exact (Hc PlaylistContainerType Hi Hm).
  - replace (isFile p) with true by (now injection Hi as <-).
    exact (Hit PlaylistContainerType Hi Hm).
  - destruct i; discriminate Hi.
Qed.

Lemma routeKind_sound t w absPath i m :
  routeKind t w absPath = Some (i, m) -> routed w absPath i m.
Proof.
  unfold routeKind.
  destruct (stripPrefix (kindName t) absPath) as [r|] eqn:E; [|discriminate].
  apply stripPrefix_inv in E. subst absPath.
  destruct r as [|c rest].
  - destruct w; [discriminate|]. intros [= <- <-].
    rewrite app_nil_r. constructor.
  - destruct (Ascii.eqb_spec c slash) as [->|_]; [|discriminate]. cbn [negb].
    destruct w.
    + destruct (pathSplit_spec rest) as (Hcat & Hfile & Hdir).
      destruct (pathSplit rest) as [dir file]. cbn [fst snd] in *.
      destruct (removelast dir) as [|x mid] eqn:Emid; [discriminate|].
      destruct file as [|y file]; [discriminate|].
      destruct (noNewline (x :: mid)) eqn:Hnl; [|discriminate].
      intros [= <- <-].
      destruct Hdir as [->|Hdir]; [discriminate|].
      rewrite Hdir, <- app_assoc in Hcat. cbn [app] in Hcat. rewrite Hcat.
      change (x :: mid ++ slash :: y :: file)
        with ((x :: mid) ++ slash :: y :: file).
      constructor; try discriminate; auto.
      now rewrite noSlash_slashFree.
    + destruct rest as [|x rest]; [discriminate|].
      destruct (noNewline (x :: rest)) eqn:Hnl; [|discriminate].
      intros [= <- <-]. constructor; [discriminate|assumption].
Qed.

Lemma route_sound w absPath i m :
  route w absPath = Some (i, m) -> routed w absPath i m.
Proof.
  unfold route. destruct absPath as [|c t].
  - destruct w; [discriminate|]. intros [= <- <-]. constructor.
  - destruct (routeKind AlbumContainerType w (c :: t)) as [r|] eqn:E.
    + intros [= ->]. now apply routeKind_sound in E.
    + apply routeKind_sound.
Qed.

Lemma routeKind_complete t w absPath i m :
  routed w absPath i m ->
  (absPath = kindName t \/ exists rest, absPath = kindName t ++ slash :: rest) ->
  routeKind t w absPath = Some (i, m).
Proof.
  intros H Ht.
  assert (Hkind : forall t' r, kindName t' ++ r = kindName t ++ r -> t' = t).
  { intros [] r; destruct t; cbn; intros E; try reflexivity; discriminate E. }
  assert (Hkind' : forall t' r r', kindName t' ++ slash :: r = kindName t ++ slash :: r'
                                   -> t' = t /\ r = r').
  { intros [] r r'; destruct t; cbn; intros E; try discriminate E;
      injection E as ->; auto. }
  assert (Hne : forall t1 t2 r, kindName t1 <> kindName t2 ++ slash :: r).
  { intros [] [] r; cbn; discriminate. }
  destruct H as [|t'|t' name Hn Hnl|t' mid last Hmid Hnl Hlast Hns].
  - destruct Ht as [E|[rest E]]; destruct t; discriminate E.
  - destruct Ht as [E|[rest E]]; [|now apply Hne in E].
    assert (t' = t) as -> by (destruct t', t; try reflexivity; discriminate E).
    destruct t; reflexivity.
  - destruct Ht as [E|[rest E]]; [symmetry in E; now apply Hne in E|].
    apply Hkind' in E as [-> <-].
    unfold routeKind. rewrite stripPrefix_app.
    replace (Ascii.eqb slash slash) with true by reflexivity. cbn [negb].
    destruct name; [contradiction|]. now rewrite Hnl.
  - destruct Ht as [E|[rest E]]; [symmetry in E; now apply Hne in E|].
    apply Hkind' in E as [-> <-].
    unfold routeKind. rewrite stripPrefix_app.
    replace (Ascii.eqb slash slash) with true by reflexivity. cbn [negb].
    rewrite pathSplit_app_slash by now rewrite <- noSlash_slashFree.
    rewrite removelast_last.
    destruct mid; [contradiction|]. destruct last; [contradiction|].
    now rewrite Hnl.
Qed.

Lemma routed_empty w i m : routed w [] i m -> w = false /\ i = 0 /\ m = [[]].
Proof.
  intros H. remember [] as a eqn:Ea.
  destruct H; try (destruct t; discriminate Ea); auto.
Qed.

Lemma route_complete w absPath i m :
  routed w absPath i m -> route w absPath = Some (i, m).
Proof.
  intros H. unfold route.
  assert (Hshape : absPath = [] \/ exists t, (absPath = kindName t
                     \/ exists rest, absPath = kindName t ++ slash :: rest)).
  { destruct H; [now left|right; exists t; eauto..]. }
  destruct Hshape as [->|[t Ht]].
  - apply routed_empty in H as (-> & -> & ->). reflexivity.
  - destruct absPath as [|c s].
    + destruct Ht as [E|[rest E]]; destruct t; discriminate E.
    + destruct t.
      * now rewrite (routeKind_complete AlbumContainerType H Ht).
      * destruct (routeKind AlbumContainerType w (c :: s)) as [r|] eqn:E.
        -- exfalso.
           destruct Ht as [Ea|[rest Ea]]; rewrite Ea in E; discriminate E.
        -- now apply routeKind_complete.
Qed.

(** The loop over the table computes [route]. *)
Lemma matchLoop_is_route absPath prefix w :
  DirPatterns.matchLoop patterns absPath prefix w =
  match route w absPath with
  | Some (i, m) =>
      match nth_error patterns i with
      | Some p => Matched m prefix p
      | None => NoMatch
      end
  | None => NoMatch
  end.
Proof.
  destruct (route w absPath) as [[i m]|] eqn:E.
  - apply route_sound in E. destruct (routed_matched E) as (p & -> & H). apply H.
  - destruct (DirPatterns.matchLoop patterns absPath prefix w) eqn:M.
    + now apply matchLoop_no_panic in M; [|apply patterns_are_compiled].
    + reflexivity.
    + apply matched_routed in M as (i & _ & H).
      apply route_complete in H. congruence.
Qed.

(** X2.  [match] decides by the layout alone: when the slice expression is in
    range, it returns the rule and the captures that [route] reads off the
    joined path by cutting it at its separators, and no rule when [route]
    finds none. *)
Theorem match_is_route root itemPath w :
  let absPath := DirPatterns.absPathOf root itemPath in
  length root <= length absPath ->
  DirPatterns.match_ patterns root itemPath w =
  match route w absPath with
  | Some (i, m) =>
      match nth_error patterns i with
      | Some p => Matched m (DirPatterns.prefixOf root absPath) p
      | None => NoMatch
      end
  | None => NoMatch
  end.
Proof.
  intros absPath Hlen. rewrite match_in_range by exact Hlen.
  apply matchLoop_is_route.
Qed.

Lemma match_is_route_witness :
  exists p,
    nth_error patterns 5 = Some p
    /\ DirPatterns.match_ patterns s["playlist"] s["Summer/2024"] false
       = Matched [s["playlist/Summer/2024"]; s["Summer/2024"]] s["Summer/2024/"] p.
Proof.
  eexists. split; [reflexivity|].
  rewrite (@match_is_route s["playlist"] s["Summer/2024"] false); [reflexivity|].
  cbn. lia.
Defined.

(** X3.  A path that resolves as a file also resolves as a directory: when
    [match] in file style returns the item rule of a kind with the captures
    [mid] and [last], and [last] has no newline, [match] in directory style
    returns the collection rule of that kind with the single capture
    [mid/last]. *)
Theorem file_path_is_directory root itemPath m prefix p :
  DirPatterns.match_ patterns root itemPath true = Matched m prefix p ->
  noNewline (nth 2 m []) = true ->
  exists t q,
    nth_error patterns (itemIndex t) = Some p
    /\ nth_error patterns (collectionIndex t) = Some q
    /\ DirPatterns.match_ patterns root itemPath false
       = Matched [DirPatterns.absPathOf root itemPath;
                  nth 1 m [] ++ slash :: nth 2 m []] prefix q.
Proof.
  intros H Hnl. apply match_Matched in H as [Hlen H].
  pose proof H as Hloop. apply matchLoop_Matched in Hloop as [-> _].
  apply matched_routed in H as (i & Hi & Hr).
  remember (DirPatterns.absPathOf root itemPath) as absPath eqn:Eabs.
  remember true as w eqn:Ew.
  destruct Hr as [| |t name|t mid last Hmid Hnlm Hlast Hns]; try discriminate Ew.
  cbn [nth] in Hnl |- *.
  assert (Hc : routed false (kindName t ++ slash :: mid ++ slash :: last)
                 (collectionIndex t)
                 [kindName t ++ slash :: mid ++ slash :: last; mid ++ slash :: last]).
  { constructor.
    - destruct mid; discriminate.
    - unfold noNewline in *. rewrite forallb_app. cbn [forallb].
      rewrite Hnlm. unfold noNewline in Hnl. now rewrite Hnl. }
  destruct (routed_matched Hc) as (q & Hq & Hm).
  exists t, q. repeat split; try assumption.
  rewrite match_in_range by (rewrite <- Eabs; exact Hlen).
  rewrite <- Eabs. apply Hm.
Qed.

Lemma file_path_is_directory_witness :
  exists q,
    nth_error patterns 2 = Some q
    /\ DirPatterns.match_ patterns [] s["album/Vacation/img1.jpg"] false
       = Matched [s["album/Vacation/img1.jpg"]; s["Vacation/img1.jpg"]]
                 s["album/Vacation/img1.jpg/"] q.
Proof.
  destruct (@file_path_is_directory [] s["album/Vacation/img1.jpg"]
              [s["album/Vacation/img1.jpg"]; s["Vacation"]; s["img1.jpg"]]
              s["album/Vacation/img1.jpg/"]
              {| re := "^album/(.+?)/([^/]+)$";
                 match_re := Regexp.Compile s["^album/(.+?)/([^/]+)$"];
                 canUpload := true; canMkdir := false; isFile := true;
                 toEntries := None |} eq_refl eq_refl)
    as (t & q & Hp & Hq & H).
  destruct t; [|discriminate Hp].
  exists q. split; [exact Hq|exact H].
Defined.

Section OperationsByLayout.

Variables apiContainer apiPhoto Reader : Type.
Variable containerType : dirPattern -> ContainerType.
Variable f : Fs apiContainer apiPhoto Reader.

Lemma prefixOf_empty root : DirPatterns.prefixOf root [] = [].
Proof. unfold DirPatterns.prefixOf. now rewrite skipn_nil. Qed.

(** X4.  What [List] does when the joined path is at least as long as the
    root (the slice expression of [match] is in range), by the place of the
    joined path in the layout: at the root it yields the two kind
    directories; at a kind it asks for the containers of that kind; below a
    kind it asks for the photos of the container named by all that follows
    the kind, separators included; on any other path it reports that the
    directory is not found.  A joined path shorter than the root is left
    out: there [match] panics, and [List] with it. *)
Theorem List_by_layout dir :
  let absPath := DirPatterns.absPathOf (root f) dir in
  let prefix := DirPatterns.prefixOf (root f) absPath in
  length (root f) <= length absPath ->
  (absPath = [] ->
     List f dir = Ok [ NewDir s["album"] (startTime f);
                       NewDir s["playlist"] (startTime f) ])
  /\ (forall t, absPath = kindName t ->
        List f dir = fsListContainers f prefix t)
  /\ (forall t name,
        absPath = kindName t ++ slash :: name ->
        name <> [] -> noNewline name = true ->
        List f dir = fsListPhotos f prefix t name)
  /\ (route false absPath = None -> List f dir = Err ErrorDirNotFound).
Proof.
  intros absPath prefix Hlen. unfold List.
  rewrite match_in_range by exact Hlen. fold absPath. fold prefix.
  rewrite matchLoop_is_route.
  split; [|split; [|split]].
  - intros E. subst prefix. rewrite E, prefixOf_empty. reflexivity.
  - intros t E. rewrite E. destruct t; reflexivity.
  - intros t name E Hne Hnl.
    rewrite E, (route_complete (CollectionPath t Hne Hnl)).
    destruct (collection_rule t) as (p & -> & _ & -> & _ & _ & ->). reflexivity.
  - intros ->. reflexivity.
Qed.

(** X5.  What [Mkdir] and [Rmdir] do when the joined path is at least as
    long as the root (the slice expression of [match] is in range), by the
    place of the joined path in the layout: refused at the root and at a
    kind; below a kind the container created, or looked up and deleted, is
    named by all that follows the kind; on any other path the directory is
    not found.  A joined path shorter than the root is left out: there
    [match] panics, and both operations with it. *)
Theorem Mkdir_Rmdir_by_layout dir :
  let absPath := DirPatterns.absPathOf (root f) dir in
  length (root f) <= length absPath ->
  ((absPath = [] \/ exists t, absPath = kindName t) ->
     Mkdir containerType f dir = Err errCantMkdir
     /\ Rmdir containerType f dir = Err errCantRmdir)
  /\ (forall t name,
        absPath = kindName t ++ slash :: name ->
        name <> [] -> noNewline name = true ->
        exists p,
          nth_error patterns (collectionIndex t) = Some p
          /\ Mkdir containerType f dir
             = match CreateContainer (nixplayClient f) (containerType p) name with
               | Ok _ => Ok tt
               | Err e => Err e
               | Panic => Panic
               end
          /\ Rmdir containerType f dir
             = match ContainerWithUniqueName (nixplayClient f)
                       (containerType p) name with
               | Ok (Some c) => Delete (nixplayClient f) c
               | Ok None => Err ErrorDirNotFound
               | Err e => Err e
               | Panic => Panic
               end)
  /\ (route false absPath = None ->
        Mkdir containerType f dir = Err ErrorDirNotFound
        /\ Rmdir containerType f dir = Err ErrorDirNotFound).
Proof.
  intros absPath Hlen. unfold Mkdir, Rmdir.
  rewrite match_in_range by exact Hlen. fold absPath.
  rewrite matchLoop_is_route.
  split; [|split].
  - intros [E|[t E]]; rewrite E; [|destruct t]; split; reflexivity.
  - intros t name E Hne Hnl. rewrite E.
    rewrite (route_complete (CollectionPath t Hne Hnl)).
    destruct (collection_rule t) as (p & Hp & _ & _ & _ & Hmk & _).
    exists p. rewrite Hp, Hmk. cbn [negb index nth_error].
    split; [reflexivity|]. split.
    + now destruct (CreateContainer _ _ _).
    + destruct (ContainerWithUniqueName _ _ _) as [[c|]| |]; reflexivity.
  - intros ->. split; reflexivity.
Qed.

(** X6.  What [NewObject] and [Put] do when the joined path is at least as
    long as the root (the slice expression of [match] is in range).  On an
    item path [kind/mid/last] both look up the container named [mid];
    [NewObject] then looks up the photo [last] and reports a missing
    container or photo as object not found, while [Put] adds the photo
    [last] and panics when the container is missing, calling a method of the
    nil container.  On a path that is no item path [NewObject] reports
    object not found and [Put] refuses.  A joined path shorter than the root
    is left out: there [match] panics, and both operations with it. *)
Theorem NewObject_Put_by_layout remote input src :
  Remote src = remote ->
  let absPath := DirPatterns.absPathOf (root f) remote in
  length (root f) <= length absPath ->
  (forall t mid last,
     absPath = kindName t ++ slash :: mid ++ slash :: last ->
     mid <> [] -> noNewline mid = true -> last <> [] -> noSlash last = true ->
     exists p,
       nth_error patterns (itemIndex t) = Some p
       /\ NewObject containerType f remote
          = match ContainerWithUniqueName (nixplayClient f) (containerType p) mid with
            | Ok (Some c) =>
                match PhotoWithUniqueName (nixplayClient f) c last with
                | Ok (Some ph) => Ok {| parent := c; photo := ph |}
                | Ok None => Err ErrorObjectNotFound
                | Err e => Err (Errorf "failed to get photos" e)
                | Panic => Panic
                end
            | Ok None => Err ErrorObjectNotFound
            | Err e => Err (Errorf "failed to get container" e)
            | Panic => Panic
            end
       /\ Put containerType f input src
          = match ContainerWithUniqueName (nixplayClient f) (containerType p) mid with
            | Ok (Some c) =>
                match AddPhoto (nixplayClient f) c last input
                        {| FileSize := Size src;
                           MIMEType := match srcMimeType src with
                                       | Some mt => mt
                                       | None => []
                                       end |} with
                | Ok ph => Ok {| parent := c; photo := ph |}
                | Err e => Err (Errorf "failed to add photo" e)
                | Panic => Panic
                end
            | Ok None => Panic
            | Err e => Err (Errorf "failed to get container to upload photo into" e)
            | Panic => Panic
            end)
  /\ (route true absPath = None ->
        NewObject containerType f remote = Err ErrorObjectNotFound
        /\ Put containerType f input src = Err errCantUpload).
Proof.
  intros Hsrc absPath Hlen. unfold NewObject, Put. rewrite Hsrc.
  rewrite match_in_range by exact Hlen. fold absPath.
  rewrite matchLoop_is_route.
  split.
  - intros t mid last E Hmid Hnl Hlast Hns. rewrite E.
    rewrite (route_complete (ItemPath t Hmid Hnl Hlast Hns)).
    destruct (item_rule t) as (p & Hp & _ & Hfile & Hup & _).
    exists p. rewrite Hp, Hfile, Hup. cbn [negb orb index nth_error].
    split; [reflexivity|]. split.
    + destruct (ContainerWithUniqueName _ _ _) as [[c|]| |]; reflexivity.
    + destruct (ContainerWithUniqueName _ _ _) as [[c|]| |]; reflexivity.
  - intros ->. split; reflexivity.
Qed.

End OperationsByLayout.

Lemma List_by_layout_witness :
  List (probeFs s["album"]) s["Vacation/2024"]
  = Ok [ListedEntry s["Vacation/2024/Vacation/2024"]].
Proof.
  destruct (@List_by_layout _ _ _ (probeFs s["album"]) s["Vacation/2024"])
    as (_ & _ & H & _); [cbn; lia|].
  now apply (H AlbumContainerType s["Vacation/2024"]).
Defined.

Lemma Mkdir_Rmdir_by_layout_witness :
  Mkdir kindOfRule (probeFs []) s["playlist/a/b"] = Ok tt
  /\ Rmdir kindOfRule (probeFs []) s["playlist"] = Err errCantRmdir.
Proof.
  destruct (@Mkdir_Rmdir_by_layout _ _ _ kindOfRule (probeFs []) s["playlist/a/b"])
    as (_ & H & _); [cbn; lia|].
  destruct (H PlaylistContainerType s["a/b"]) as (p & Hp & Hmk & _);
    [reflexivity|discriminate|reflexivity|].
  destruct (@Mkdir_Rmdir_by_layout _ _ _ kindOfRule (probeFs []) s["playlist"])
    as (H0 & _); [cbn; lia|].
  split; [rewrite Hmk; reflexivity|].
  apply H0. right. now exists PlaylistContainerType.
Defined.

Lemma NewObject_Put_by_layout_witness :
  Put kindOfRule (silentFs []) tt
      {| Remote := s["album/Vacation/img1.jpg"]; Size := 0%Z; srcMimeType := None |}
  = Err (Errorf "failed to get container to upload photo into" (ClientError 0)).
Proof.
  destruct (@NewObject_Put_by_layout _ _ _ kindOfRule (silentFs [])
              s["album/Vacation/img1.jpg"] tt
              {| Remote := s["album/Vacation/img1.jpg"]; Size := 0%Z;
                 srcMimeType := None |} eq_refl) as (H & _); [cbn; lia|].
  destruct (H AlbumContainerType s["Vacation"] s["img1.jpg"])
    as (p & Hp & _ & Hput);
    [reflexivity|discriminate|reflexivity|discriminate|reflexivity|].
  rewrite Hput. reflexivity.
Defined.

Lemma cleanElems_prefix xs ys : cleanElems (xs ++ ys) = true -> cleanElems xs = true.
Proof.
  induction xs as [|x xs IH]; [reflexivity|]. cbn [app cleanElems].
  destruct (str_eqb x s[".."]); [exact IH|].
  rewrite app_comm_cons, forallb_app. intros H. now apply andb_prop in H.
Qed.

Lemma TrimRight_snoc_slash s :
  Strings.TrimRight (s ++ [slash]) = Strings.TrimRight s.
Proof.
  unfold Strings.TrimRight. rewrite rev_app_distr. cbn [rev app Strings.TrimLeft].
  now replace (Ascii.eqb slash slash) with true by reflexivity.
Qed.

Lemma joinElems_nil_inv es : Forall solid es -> Path.joinElems es = [] -> es = [].
Proof.
  intros H E. destruct es as [|e es]; [reflexivity|]. exfalso. revert E.
  apply joinElems_nonempty. exact (proj1 (Forall_inv H)).
Qed.

Lemma solid_slashFree es : Forall solid es -> Forall (fun e => slashFree e = true) es.
Proof. intros H. eapply Forall_impl; [|exact H]. now intros a [_ Ha]. Qed.

(** The parent of a normal root is a normal root. *)
Lemma parent_root_normal root :
  normalRoot root -> normalRoot (Strings.TrimRight (fst (pathSplit root))).
Proof.
  intros (es & Hes & ->).
  destruct es as [|x xs]; [now exists []|].
  destruct (@exists_last _ (x :: xs)) as (es' & e & E); [discriminate|].
  rewrite E in *. clear E x xs.
  pose proof (cleanElems_solid _ Hes) as Hsolid.
  apply Forall_app in Hsolid as [Hs' He]. apply Forall_inv in He.
  destruct es' as [|e' es'].
  - cbn [app Path.joinElems]. rewrite pathSplit_slashFree by apply He. now exists [].
  - rewrite joinElems_app by discriminate. change (Path.joinElems [e]) with e.
    rewrite pathSplit_app_slash by apply He. cbn [fst].
    rewrite TrimRight_snoc_slash, TrimRight_id by now apply joinElems_last.
    exists (e' :: es'). split; [now apply cleanElems_prefix in Hes|reflexivity].
Qed.

Lemma kind_solid t : solid (kindName t) /\ realElem (kindName t) = true.
Proof. destruct t; repeat split; discriminate. Qed.

(** A normal root that is an item path [kind/mid/last]: its parent is
    [kind/mid], and [last] under that parent is joined to the root again. *)
Lemma item_root_split root t mid last :
  normalRoot root ->
  root = kindName t ++ slash :: mid ++ slash :: last ->
  last <> [] -> noSlash last = true ->
  let parentDir := kindName t ++ slash :: mid in
  pathSplit root = (parentDir ++ [slash], last)
  /\ Strings.TrimRight (parentDir ++ [slash]) = parentDir
  /\ normalRoot parentDir
  /\ DirPatterns.absPathOf parentDir last = root.
Proof.
  intros (es & Hes & Eroot) E Hlast Hns parentDir.
  rewrite noSlash_slashFree in Hns.
  assert (Ecat : root = parentDir ++ slash :: last).
  { rewrite E. unfold parentDir. now rewrite <- app_assoc. }
  pose proof (cleanElems_solid _ Hes) as Hsolid.
  assert (Esplit : es = Path.split parentDir ++ [last]).
  { rewrite <- (split_joinElems (es := es)).
    - rewrite <- Eroot, Ecat, split_app_slash. f_equal.
      now apply split_slashFree_elem.
    - intros ->. rewrite Eroot in Ecat. destruct parentDir; discriminate Ecat.
    - now apply solid_slashFree. }
  assert (Hparent : cleanElems (Path.split parentDir) = true).
  { rewrite Esplit in Hes. now apply cleanElems_prefix in Hes. }
  assert (Hreal : realElem last = true).
  { assert (Hk : Path.split parentDir = kindName t :: Path.split mid).
    { unfold parentDir. rewrite split_app_slash.
      now rewrite (split_slashFree_elem _ (proj2 (proj1 (kind_solid t)))). }
    rewrite Esplit, Hk in Hes. cbn [app cleanElems] in Hes.
    replace (str_eqb (kindName t) s[".."]) with false in Hes by now destruct t.
    rewrite app_comm_cons, forallb_app in Hes.
    apply andb_prop in Hes as [_ Hl]. cbn in Hl. now rewrite andb_true_r in Hl. }
  assert (Hpsolid : Forall solid (Path.split parentDir))
    by now apply cleanElems_solid.
  assert (Hjoin : Path.joinElems (Path.split parentDir) = parentDir)
    by apply joinElems_split.
  split; [rewrite Ecat; now apply pathSplit_app_slash|].
  split.
  { rewrite TrimRight_snoc_slash. apply TrimRight_id.
    rewrite <- Hjoin. now apply joinElems_last. }
  split; [exists (Path.split parentDir); auto|].
  assert (Htrim : Strings.Trim last = last).
  { apply (Trim_joinElems (es := [last])). constructor; [|constructor].
    split; assumption. }
  rewrite <- Hjoin at 1. rewrite absPath_normal.
  - rewrite Htrim. unfold realElems.
    rewrite (split_slashFree_elem _ Hns). cbn [filter]. rewrite Hreal.
    rewrite Eroot, Esplit. reflexivity.
  - destruct (split_cons_inv parentDir) as (x & xs & ->). discriminate.
  - exact Hparent.
  - rewrite Htrim. unfold noParentStep. rewrite (split_slashFree_elem _ Hns).
    cbn [forallb]. apply realElem_spec in Hreal as (_ & _ & Hd & _).
    destruct (str_eqb_spec last s[".."]); [contradiction|reflexivity].
Qed.

(** What [NewFs] goes through on a root that is an item path: the root
    matches the item rule of its kind; it splits into the parent and the last
    element; and the last element, under the parent, matches the same rule
    with the same captures. *)
Lemma item_root_steps root0 t mid last :
  normalizeRoot root0 = kindName t ++ slash :: mid ++ slash :: last ->
  mid <> [] -> noNewline mid = true -> last <> [] -> noSlash last = true ->
  let root := normalizeRoot root0 in
  let parentDir := kindName t ++ slash :: mid in
  exists p,
    nth_error patterns (itemIndex t) = Some p /\ isFile p = true
    /\ (exists pre, DirPatterns.match_ patterns root [] true
                    = Matched [root; mid; last] pre p)
    /\ pathSplit root = (parentDir ++ [slash], last)
    /\ Strings.TrimRight (parentDir ++ [slash]) = parentDir
    /\ (exists pre, DirPatterns.match_ patterns parentDir last true
                    = Matched [root; mid; last] pre p).
Proof.
  intros Eroot Hmid Hnl Hlast Hns root parentDir.
  pose proof (normalizeRoot_normal root0) as Hn.
  destruct (item_root_split t mid Hn Eroot Hlast Hns)
    as (Hsplit & Htrim & Hparent & Habs).
  destruct (@item_path_matched t (normalizeRoot root0) [] mid last)
    as (p & Hp & Hmatch); auto.
  { rewrite normalRoot_self by exact Hn. exact Eroot. }
  { rewrite Eroot. lia. }
  destruct (@item_path_matched t (kindName t ++ slash :: mid) last mid last)
    as (p' & Hp' & Hmatch'); auto.
  { rewrite Habs. exact Eroot. }
  { rewrite !length_app. cbn [length]. rewrite length_app. cbn [length]. lia. }
  rewrite Hp in Hp'. injection Hp' as <-.
  destruct (item_rule t) as (q & Hq & _ & Hfile & _).
  rewrite Hp in Hq. injection Hq as <-.
  exists p. unfold root, parentDir.
  split; [exact Hp|]. split; [exact Hfile|]. split; [|split; [|split]].
  - eexists. rewrite Hmatch, Eroot. reflexivity.
  - exact Hsplit.
  - exact Htrim.
  - eexists. rewrite Hmatch', Eroot. reflexivity.
Qed.

Section ConstructionFacts.

Variables apiContainer apiPhoto Reader : Type.
Variable containerType : dirPattern -> ContainerType.
Variable Mapper : Type.
Variable configSet : Mapper -> result Options.
Variable Reveal : str -> result str.
Variable NewDefaultClient :
  Authorization -> result (Client apiContainer apiPhoto Reader).
Variable now : Time.
Variable listContainersWith :
  Client apiContainer apiPhoto Reader -> Time -> str -> ContainerType
  -> result DirEntries.
Variable listPhotosWith :
  Client apiContainer apiPhoto Reader -> Time -> str -> ContainerType -> str
  -> result DirEntries.

Let newFs := NewFs containerType configSet Reveal NewDefaultClient now
               listContainersWith listPhotosWith.
Let fsAt := mkFs now listContainersWith listPhotosWith.

(** X7.  The root of an [Fs] that [NewFs] returns, with or without
    [fs.ErrorIsFile], is normal: parent steps first, then real elements,
    joined by single separators, none at the ends. *)
Theorem NewFs_root_normal name root0 m f :
  newFs name root0 m = NewFsOk f \/ newFs name root0 m = NewFsIsFile f ->
  normalRoot (root f).
Proof.
  unfold newFs, NewFs.
  pose proof (normalizeRoot_normal root0) as Hn.
  destruct (configSet m) as [opt| |]; [|intros [H|H]; discriminate H..].
  destruct (Reveal _) as [pw| |]; [|intros [H|H]; discriminate H..].
  destruct (NewDefaultClient _) as [client| |]; [|intros [H|H]; discriminate H..].
  destruct (DirPatterns.match_ _ _ _ _) as [| |mm pre p].
  - intros [H|H]; discriminate H.
  - intros [[= <-]|H]; [exact Hn|discriminate H].
  - destruct (isFile p); [|intros [[= <-]|H]; [exact Hn|discriminate H]].
    pose proof (parent_root_normal Hn) as Hp.
    destruct (pathSplit (normalizeRoot root0)) as [dir leaf]. cbn [fst] in Hp.
    destruct (NewObject _ _ _) as [o|e|]; intros [H|H]; try discriminate H;
      injection H as <-; assumption.
Qed.

(** X8.  [NewFs] on a root that is an item path [kind/mid/last]: it looks up
    the container [mid] and the photo [last]; when both exist it returns the
    [Fs] of the parent [kind/mid] together with [fs.ErrorIsFile]; when the
    container or the photo is missing, or their lookup fails, it returns the
    [Fs] of the whole root. *)
Theorem NewFs_on_item_root name root0 m opt password client t mid last :
  configSet m = Ok opt ->
  Reveal (Password opt) = Ok password ->
  NewDefaultClient {| Username := UserName opt; AuthPassword := password |}
    = Ok client ->
  normalizeRoot root0 = kindName t ++ slash :: mid ++ slash :: last ->
  mid <> [] -> noNewline mid = true -> last <> [] -> noSlash last = true ->
  exists p,
    nth_error patterns (itemIndex t) = Some p
    /\ newFs name root0 m
       = match ContainerWithUniqueName client (containerType p) mid with
         | Ok (Some c) =>
             match PhotoWithUniqueName client c last with
             | Ok (Some _) => NewFsIsFile (fsAt name (kindName t ++ slash :: mid) client)
             | Ok None | Err _ => NewFsOk (fsAt name (normalizeRoot root0) client)
             | Panic => NewFsPanic
             end
         | Ok None | Err _ => NewFsOk (fsAt name (normalizeRoot root0) client)
         | Panic => NewFsPanic
         end.
Proof.
  intros Hcfg Hrev Hcl Eroot Hmid Hnl Hlast Hns.
  destruct (item_root_steps root0 t Eroot Hmid Hnl Hlast Hns)
    as (p & Hp & Hfile & [pre Hmatch] & Hsplit & Htrim & [pre' Hmatch']).
  exists p. split; [exact Hp|].
  unfold newFs, NewFs. rewrite Hcfg, Hrev, Hcl, Hmatch, Hfile, Hsplit, Htrim.
  unfold NewObject. cbn [root mkFs nixplayClient]. rewrite Hmatch'.
  cbn [index nth_error]. unfold fsAt.
  destruct (ContainerWithUniqueName client (containerType p) mid) as [[c|]| |];
    try reflexivity.
  destruct (PhotoWithUniqueName client c last) as [[ph|]| |]; reflexivity.
Qed.

(** X9.  [NewFs] on a root that is no item path: it returns the [Fs] of the
    normalized root, without asking the service for a container or a
    photo. *)
Theorem NewFs_on_directory_root name root0 m opt password client :
  configSet m = Ok opt ->
  Reveal (Password opt) = Ok password ->
  NewDefaultClient {| Username := UserName opt; AuthPassword := password |}
    = Ok client ->
  route true (normalizeRoot root0) = None ->
  newFs name root0 m = NewFsOk (fsAt name (normalizeRoot root0) client).
Proof.
  intros Hcfg Hrev Hcl Hroute.
  pose proof (normalizeRoot_normal root0) as Hn.
  unfold newFs, NewFs. rewrite Hcfg, Hrev, Hcl.
  rewrite match_in_range by (rewrite normalRoot_self by exact Hn; lia).
  rewrite matchLoop_is_route, normalRoot_self by exact Hn.
  now rewrite Hroute.
Qed.

(** X10.  [NewFs] does not panic by itself: it panics only when the
    configuration mapper, [obscure.Reveal], the constructor of the client or
    a lookup of the client does. *)
Theorem NewFs_no_panic name root0 m :
  configSet m <> Panic ->
  (forall x, Reveal x <> Panic) ->
  (forall a, NewDefaultClient a <> Panic) ->
  (forall a client, NewDefaultClient a = Ok client ->
     (forall t n, ContainerWithUniqueName client t n <> Panic)
     /\ (forall c n, PhotoWithUniqueName client c n <> Panic)) ->
  newFs name root0 m <> NewFsPanic.
Proof.
  intros Hcfg Hrev Hcl Hclient.
  pose proof (normalizeRoot_normal root0) as Hn.
  destruct (configSet m) as [opt| |] eqn:Ecfg; [| |contradiction].
  2:{ unfold newFs, NewFs. rewrite Ecfg. discriminate. }
  destruct (Reveal (Password opt)) as [pw| |] eqn:Erev; [| |now apply Hrev in Erev].
  2:{ unfold newFs, NewFs. rewrite Ecfg, Erev. discriminate. }
  destruct (NewDefaultClient {| Username := UserName opt; AuthPassword := pw |})
    as [client| |] eqn:Ecl; [| |now apply Hcl in Ecl].
  2:{ unfold newFs, NewFs. rewrite Ecfg, Erev, Ecl. discriminate. }
  destruct (Hclient _ _ Ecl) as [Hc Hp].
  destruct (DirPatterns.match_ patterns (normalizeRoot root0) [] true)
    as [| |mm pre p] eqn:M.
  - apply match_panics_iff in M. rewrite normalRoot_self in M by exact Hn. lia.
  - unfold newFs, NewFs. rewrite Ecfg, Erev, Ecl, M. discriminate.
  - apply match_Matched in M as [_ M]. apply matched_routed in M as (i & Hi & Hr).
    rewrite normalRoot_self in Hr by exact Hn.
    remember true as w eqn:Ew. remember (normalizeRoot root0) as root1 eqn:E1.
    destruct Hr as [| |t nm|t mid last Hmid Hnl Hlast Hns]; try discriminate Ew.
    symmetry in E1.
    destruct (item_root_steps root0 t E1 Hmid Hnl Hlast Hns)
      as (q & _ & Hfile & [pre1 Hmatch] & Hsplit & Htrim & [pre' Hmatch']).
    unfold newFs, NewFs. rewrite Ecfg, Erev, Ecl, Hmatch, Hfile, Hsplit, Htrim.
    unfold NewObject. cbn [root mkFs nixplayClient]. rewrite Hmatch'.
    cbn [index nth_error].
    specialize (Hc (containerType q) mid).
    destruct (ContainerWithUniqueName client (containerType q) mid) as [[c|]| |];
      try discriminate; [|contradiction].
    specialize (Hp c last).
    destruct (PhotoWithUniqueName client c last) as [[ph|]| |];
      try discriminate. contradiction.
Qed.

End ConstructionFacts.

Lemma NewFs_on_item_root_witness :
  exists f, probeNewFs s["/album/Vacation/./img1.jpg/"] = NewFsIsFile f
            /\ root f = s["album/Vacation"].
Proof.
  destruct (@NewFs_on_item_root _ _ _ kindOfRule unit
              probeConfig probeReveal probeNewClient 0%Z
              probeListContainers probeListPhotos
              s["nixplay"] s["/album/Vacation/./img1.jpg/"] tt
              {| UserName := s["user"]; Password := s["secret"] |} s["secret"]
              probeClient AlbumContainerType s["Vacation"] s["img1.jpg"])
    as (p & Hp & H);
    [reflexivity|reflexivity|reflexivity|reflexivity
    |discriminate|reflexivity|discriminate|reflexivity|].
  eexists. split; [exact H|reflexivity].
Defined.

Lemma NewFs_root_normal_witness :
  exists f, probeNewFs s["a/../../b//c/"] = NewFsOk f /\ normalRoot (root f).
Proof.
  eexists. split; [reflexivity|].
  apply (@NewFs_root_normal _ _ _ kindOfRule unit
           probeConfig probeReveal probeNewClient 0%Z
           probeListContainers probeListPhotos
           s["nixplay"] s["a/../../b//c/"] tt).
  left. reflexivity.
Defined.

Lemma NewFs_on_directory_root_witness :
  exists f, probeNewFs s["./album//Vacation/"] = NewFsOk f
            /\ root f = s["album/Vacation"].
Proof.
  eexists. split.
  - apply (@NewFs_on_directory_root _ _ _ kindOfRule unit
             probeConfig probeReveal probeNewClient 0%Z
             probeListContainers probeListPhotos
             s["nixplay"] s["./album//Vacation/"] tt
             {| UserName := s["user"]; Password := s["secret"] |} s["secret"]
             probeClient); reflexivity.
  - reflexivity.
Defined.

Lemma NewFs_no_panic_witness : probeNewFs s["playlist/x/y"] <> NewFsPanic.
Proof.
  apply NewFs_no_panic; try discriminate.
  intros a client [= <-]. split; discriminate.
Defined.

Lemma joinElems_cons k l :
  l <> [] -> Path.joinElems (k :: l) = k ++ slash :: Path.joinElems l.
Proof. destruct l; [contradiction|reflexivity]. Qed.

Lemma joinElems_snoc l n :
  l <> [] -> Path.joinElems (l ++ [n]) = Path.joinElems l ++ slash :: n.
Proof. intros H. now rewrite joinElems_app by (auto; discriminate). Qed.

Lemma real_noParentStep es :
  es <> [] -> forallb realElem es = true ->
  noParentStep (Path.joinElems es) = true /\ realElems (Path.joinElems es) = es.
Proof.
  intros Hne Hes. pose proof (real_solid _ Hes) as Hsolid.
  unfold noParentStep, realElems.
  rewrite split_joinElems by auto using solid_slashFree.
  split; [|now apply filter_all].
  apply forallb_forall. intros e He. rewrite forallb_forall in Hes.
  specialize (Hes e He). apply realElem_spec in Hes as (_ & _ & Hd & _).
  destruct (str_eqb_spec e s[".."]); [contradiction|reflexivity].
Qed.

Lemma noNewline_app a b : noNewline (a ++ b) = noNewline a && noNewline b.
Proof. apply forallb_app. Qed.

Lemma Join_three a b c :
  a <> [] -> Path.Join [a; b; c] = Path.Clean (a ++ slash :: b ++ slash :: c).
Proof.
  intros Ha. unfold Path.Join. cbn [fold_left Nat.add].
  destruct a as [|x a]; [contradiction|]. cbn [length Nat.add Nat.eqb Path.joinBuf app].
  now rewrite <- app_assoc.
Qed.

Lemma absPath_of_clean es :
  es <> [] -> forallb realElem es = true ->
  DirPatterns.absPathOf [] (Path.joinElems es) = Path.joinElems es.
Proof.
  intros Hne Hes. pose proof (real_solid _ Hes) as Hsolid.
  unfold DirPatterns.absPathOf. rewrite Trim_joinElems, Join_two by exact Hsolid.
  destruct (Path.joinElems es) as [|c t] eqn:E.
  - reflexivity.
  - rewrite <- E. rewrite Clean_forward.
    + unfold realElems. rewrite split_joinElems, filter_all; auto.
      * now rewrite E.
      * now apply solid_slashFree.
    + rewrite E. discriminate.
    + now apply joinElems_first.
    + unfold noParentStep. rewrite split_joinElems; auto using solid_slashFree.
      apply forallb_forall. intros e He. rewrite forallb_forall in Hes.
      specialize (Hes e He). apply realElem_spec in Hes as (_ & _ & Hd & _).
      destruct (str_eqb_spec e s[".."]); [contradiction|reflexivity].
Qed.

Lemma prefixOf_root_clean es :
  es <> [] -> forallb realElem es = true ->
  DirPatterns.prefixOf [] (Path.joinElems es) = Path.joinElems es ++ [slash].
Proof.
  intros Hne Hes. pose proof (real_solid _ Hes) as Hsolid.
  unfold DirPatterns.prefixOf. cbn [length skipn].
  rewrite Trim_joinElems by exact Hsolid.
  destruct (Path.joinElems es) eqn:E; [|reflexivity].
  apply joinElems_nil_inv in E; [contradiction|exact Hsolid].
Qed.

Section RemoteFacts.

Variables apiContainer apiPhoto : Type.
Variable ContainerTypeOf : apiContainer -> ContainerType.
Variable containerTypeString : ContainerType -> str.
Variable ContainerName : apiContainer -> result str.
Variable NameUnique : apiPhoto -> result str.
Variable filepathJoin : list str -> str.
Variable logsDebug : bool.

Let Remote :=
  PhotoRemote ContainerTypeOf containerTypeString ContainerName NameUnique
              filepathJoin logsDebug.

(** A lookup of a name that fails.  Below the debug level [Remote] returns
    the empty string.  At the debug level it never returns: the message
    about the failure is formatted with [Remote] itself, whose lookup fails
    again. *)
Lemma Remote_failed_lookup (o : Photo apiContainer apiPhoto) :
  (exists e, ContainerName (parent o) = Err e)
  \/ (exists parentName e,
        ContainerName (parent o) = Ok parentName
        /\ NameUnique (photo o) = Err e) ->
  (logsDebug = false -> forall fuel, Remote (S fuel) o = Some (Ok []))
  /\ (logsDebug = true -> forall fuel, Remote fuel o = None).
Proof.
  intros Hfail. unfold Remote. split; intros Hlog fuel.
  - cbn [PhotoRemote]. unfold Debugf. rewrite Hlog.
    destruct Hfail as [[e ->]|(parentName & e & -> & ->)]; reflexivity.
  - induction fuel as [|fuel IH]; [reflexivity|].
    cbn [PhotoRemote]. unfold Debugf. rewrite IH, Hlog.
    destruct Hfail as [[e ->]|(parentName & e & -> & ->)]; reflexivity.
Qed.

(** The remote name of a photo whose parent and own name are made of real
    path elements, where the separator of the platform is [/]. *)
Lemma Remote_value (o : Photo apiContainer apiPhoto) parentElems name :
  (forall elem, filepathJoin elem = Path.Join elem) ->
  (forall t, containerTypeString t = kindName t) ->
  parentElems <> [] -> forallb realElem parentElems = true ->
  realElem name = true ->
  ContainerName (parent o) = Ok (Path.joinElems parentElems) ->
  NameUnique (photo o) = Ok name ->
  let t := ContainerTypeOf (parent o) in
  let remote := kindName t ++ slash :: Path.joinElems parentElems ++ slash :: name in
  (forall fuel, Remote (S fuel) o = Some (Ok remote))
  /\ Path.joinElems (kindName t :: parentElems ++ [name]) = remote
  /\ forallb realElem (kindName t :: parentElems ++ [name]) = true.
Proof.
  intros Hjoin Hkind Hne Hreal Hname Hparent Hphoto t remote.
  pose proof (kind_solid t) as [Hks Hkr].
  set (es := kindName t :: parentElems ++ [name]).
  assert (Hes : forallb realElem es = true).
  { unfold es. cbn [forallb]. rewrite Hkr, forallb_app, Hreal. cbn. now rewrite Hname. }
  assert (Ejoin : Path.joinElems es = remote).
  { unfold es, remote. rewrite joinElems_cons by now destruct parentElems.
    now rewrite joinElems_snoc. }
  split; [|split; assumption].
  destruct (real_noParentStep (es := parentElems ++ [name])) as [Hnp Hre].
  { now destruct parentElems. }
  { rewrite forallb_app, Hreal. cbn. now rewrite Hname. }
  rewrite joinElems_snoc in Hnp, Hre by assumption.
  intros fuel. unfold Remote. cbn [PhotoRemote].
  rewrite Hparent, Hphoto, Hkind, Hjoin. do 2 f_equal. fold t.
  rewrite Join_three by (destruct t; discriminate).
  change (kindName t) with (Path.joinElems [kindName t]) at 1.
  rewrite Clean_join_clean; [|discriminate|now destruct t|exact Hnp].
  rewrite Hre. exact Ejoin.
Qed.

(** X11.  The remote name of a photo resolves back to the photo, on a
    platform whose separator is [/], where [filepath.Join] is [path.Join]:
    when the container types are spelled as in the table, the name of the
    parent is made of real path elements without newline and the name of the
    photo is one real path element, [Remote] returns [kind/parent/name] at
    every log level, and [match] on it from the empty root, in file style,
    returns the item rule of the kind with the captures [parent] and
    [name]. *)
Theorem Remote_resolves (o : Photo apiContainer apiPhoto) parentElems name :
  (forall elem, filepathJoin elem = Path.Join elem) ->
  (forall t, containerTypeString t = kindName t) ->
  parentElems <> [] -> forallb realElem parentElems = true ->
  noNewline (Path.joinElems parentElems) = true ->
  realElem name = true ->
  ContainerName (parent o) = Ok (Path.joinElems parentElems) ->
  NameUnique (photo o) = Ok name ->
  let t := ContainerTypeOf (parent o) in
  let parentName := Path.joinElems parentElems in
  let remote := kindName t ++ slash :: parentName ++ slash :: name in
  (forall fuel, Remote (S fuel) o = Some (Ok remote))
  /\ exists p,
       nth_error patterns (itemIndex t) = Some p
       /\ DirPatterns.match_ patterns [] remote true
          = Matched [remote; parentName; name] (remote ++ [slash]) p.
Proof.
  intros Hjoin Hkind Hne Hreal Hnl Hname Hparent Hphoto t parentName remote.
  destruct (Remote_value o Hjoin Hkind Hne Hreal Hname Hparent Hphoto)
    as (Hremote & Ejoin & Hes).
  fold t in Ejoin, Hes. fold parentName in Ejoin. fold remote in Ejoin.
  split; [exact Hremote|].
  destruct (@item_path_matched t [] remote parentName name) as (p & Hp & Hm).
  - rewrite <- Ejoin.
    rewrite absPath_of_clean; [exact Ejoin|discriminate|exact Hes].
  - cbn. lia.
  - unfold parentName. intros E.
    apply joinElems_nil_inv in E; [contradiction|now apply real_solid].
  - exact Hnl.
  - apply realElem_spec in Hname. tauto.
  - rewrite noSlash_slashFree. apply realElem_spec in Hname. tauto.
  - exists p. split; [exact Hp|]. rewrite Hm. f_equal.
    change (DirPatterns.prefixOf [] remote = remote ++ [slash]).
    rewrite <- Ejoin. apply prefixOf_root_clean; [discriminate|exact Hes].
Qed.

End RemoteFacts.

Lemma Remote_resolves_witness :
  (forall fuel,
     PhotoRemote fst kindName (fun c => Ok (snd c)) (fun ph => Ok ph)
                 Path.Join true (S fuel) probePhoto
     = Some (Ok s["album/Trips/2024/img1.jpg"]))
  /\ exists p,
       nth_error patterns 3 = Some p
       /\ DirPatterns.match_ patterns [] s["album/Trips/2024/img1.jpg"] true
          = Matched [s["album/Trips/2024/img1.jpg"]; s["Trips/2024"]; s["img1.jpg"]]
                    s["album/Trips/2024/img1.jpg/"] p.
Proof.
  apply (@Remote_resolves _ _ fst kindName (fun c => Ok (snd c)) (fun ph => Ok ph)
           Path.Join true probePhoto [s["Trips"]; s["2024"]] s["img1.jpg"]);
    first [reflexivity | discriminate].
Defined.

Section RemoteUnderRoot.

Variables apiContainer apiPhoto : Type.
Variable ContainerTypeOf : apiContainer -> ContainerType.
Variable containerTypeString : ContainerType -> str.
Variable ContainerName : apiContainer -> result str.
Variable NameUnique : apiPhoto -> result str.
Variable filepathJoin : list str -> str.
Variable logsDebug : bool.

(** X12.  The remote name of a photo does not depend on the root of the
    [Fs].  On a platform whose separator is [/], where [filepath.Join] is
    [path.Join], with the container types spelled as in the table, the
    names of the root directory and of the parent made of real path
    elements without newline and the name of the photo one real path
    element: under a root [kind'/dir] [Remote] still returns
    [kind/parent/name], and [match] from that root joins it below the root,
    so that the container it names is [dir/kind/parent], not [parent]. *)
Theorem Remote_under_root (o : Photo apiContainer apiPhoto)
        t' dirElems parentElems name :
  (forall elem, filepathJoin elem = Path.Join elem) ->
  (forall t, containerTypeString t = kindName t) ->
  dirElems <> [] -> forallb realElem dirElems = true ->
  parentElems <> [] -> forallb realElem parentElems = true ->
  noNewline (Path.joinElems dirElems) = true ->
  noNewline (Path.joinElems parentElems) = true ->
  realElem name = true ->
  ContainerName (parent o) = Ok (Path.joinElems parentElems) ->
  NameUnique (photo o) = Ok name ->
  let t := ContainerTypeOf (parent o) in
  let dir := Path.joinElems dirElems in
  let parentName := Path.joinElems parentElems in
  let root := kindName t' ++ slash :: dir in
  let remote := kindName t ++ slash :: parentName ++ slash :: name in
  let absPath := root ++ slash :: remote in
  (forall fuel,
     PhotoRemote ContainerTypeOf containerTypeString ContainerName NameUnique
                 filepathJoin logsDebug (S fuel) o
     = Some (Ok remote))
  /\ exists p,
       nth_error patterns (itemIndex t') = Some p
       /\ DirPatterns.match_ patterns root remote true
          = Matched [absPath; dir ++ slash :: kindName t ++ slash :: parentName; name]
                    (remote ++ [slash]) p.
Proof.
  intros Hjoin Hkind Hdne Hdir Hpne Hpar Hnld Hnlp Hname Hparent Hphoto
         t dir parentName root remote absPath.
  pose proof (kind_solid t) as [Hks Hkr].
  pose proof (kind_solid t') as [Hks' Hkr'].
  assert (Hn : slashFree name = true /\ name <> []).
  { pose proof Hname as H. apply realElem_spec in H. tauto. }
  destruct Hn as (Hnsf & Hnne).
  set (rootEs := kindName t' :: dirElems).
  set (remEs := kindName t :: parentElems ++ [name]).
  assert (Hrem : forallb realElem remEs = true).
  { unfold remEs. cbn [forallb]. rewrite Hkr, forallb_app, Hpar. cbn. now rewrite Hname. }
  assert (Hrt : forallb realElem rootEs = true).
  { unfold rootEs. cbn [forallb]. now rewrite Hkr', Hdir. }
  assert (Eroot : Path.joinElems rootEs = root).
  { unfold rootEs. now rewrite joinElems_cons. }
  assert (Erem : Path.joinElems remEs = remote).
  { unfold remEs. rewrite joinElems_cons by now destruct parentElems.
    now rewrite joinElems_snoc. }
  split.
  { now destruct (@Remote_value _ _ ContainerTypeOf containerTypeString
                    ContainerName NameUnique filepathJoin logsDebug
                    o parentElems name) as [H _]. }
  destruct (real_noParentStep (es := remEs)) as [Hnp Hre];
    [discriminate|exact Hrem|].
  assert (Habs : DirPatterns.absPathOf root remote = absPath).
  { rewrite <- Eroot, <- Erem. rewrite absPath_normal.
    - rewrite Trim_joinElems by now apply real_solid.
      rewrite Hre, joinElems_app by discriminate.
      unfold absPath. now rewrite Eroot, Erem.
    - discriminate.
    - apply (cleanElems_app []); [reflexivity|exact Hrt].
    - now rewrite Trim_joinElems by now apply real_solid. }
  set (mid := dir ++ slash :: kindName t ++ slash :: parentName).
  assert (Eshape : absPath = kindName t' ++ slash :: mid ++ slash :: name).
  { unfold absPath, root, remote, mid.
    repeat (rewrite <- ?app_assoc; cbn [app]). reflexivity. }
  destruct (@item_path_matched t' root remote mid name) as (p & Hp & Hm).
  - now rewrite Habs.
  - rewrite <- Eshape. unfold absPath. rewrite length_app. lia.
  - unfold mid. destruct dir; discriminate.
  - unfold mid. rewrite noNewline_app. fold dir in Hnld. rewrite Hnld.
    change (slash :: kindName t ++ slash :: parentName)
      with ((slash :: kindName t) ++ slash :: parentName).
    rewrite noNewline_app.
    change (slash :: parentName) with ([slash] ++ parentName).
    rewrite noNewline_app. fold parentName in Hnlp. rewrite Hnlp.
    now destruct t.
  - exact Hnne.
  - now rewrite noSlash_slashFree.
  - exists p. split; [exact Hp|]. rewrite Hm, <- Eshape. f_equal.
    unfold absPath. rewrite <- Erem.
    apply prefixOf_below; [discriminate|now apply real_solid].
Qed.

End RemoteUnderRoot.

Lemma Remote_under_root_witness :
  (forall fuel,
     PhotoRemote fst kindName (fun c => Ok (snd c)) (fun ph => Ok ph)
                 Path.Join true (S fuel) probePhoto
     = Some (Ok s["album/Trips/2024/img1.jpg"]))
  /\ exists p,
    nth_error patterns 3 = Some p
    /\ DirPatterns.match_ patterns s["album/Trips/2024"] s["album/Trips/2024/img1.jpg"] true
       = Matched [s["album/Trips/2024/album/Trips/2024/img1.jpg"];
                  s["Trips/2024/album/Trips/2024"]; s["img1.jpg"]]
                 s["album/Trips/2024/img1.jpg/"] p.
Proof.
  apply (@Remote_under_root _ _ fst kindName (fun c => Ok (snd c)) (fun ph => Ok ph)
           Path.Join true probePhoto AlbumContainerType [s["Trips"]; s["2024"]]
           [s["Trips"]; s["2024"]] s["img1.jpg"]);
    first [reflexivity | discriminate].
Defined.

Lemma TrimLeft_app_repeat a s :
  Strings.TrimLeft (repeat slash a ++ s) = Strings.TrimLeft s.
Proof.
  induction a as [|a IH]; [reflexivity|]. cbn [repeat app Strings.TrimLeft].
  now replace (Ascii.eqb slash slash) with true by reflexivity.
Qed.

Lemma TrimRight_app_repeat s b :
  Strings.TrimRight (s ++ repeat slash b) = Strings.TrimRight s.
Proof.
  unfold Strings.TrimRight. now rewrite rev_app_distr, rev_repeat, TrimLeft_app_repeat.
Qed.

Lemma Trim_outer_slashes a p b :
  Strings.Trim (repeat slash a ++ p ++ repeat slash b) = Strings.Trim p.
Proof.
  unfold Strings.Trim. rewrite TrimLeft_app_repeat.
  destruct (TrimLeft_split p) as [k Hk].
  pose proof (TrimLeft_head p) as Hhd.
  destruct (Strings.TrimLeft p) as [|c t] eqn:E.
  - rewrite Hk, app_nil_r, TrimLeft_app_repeat.
    rewrite <- (app_nil_r (repeat slash b)), TrimLeft_app_repeat. reflexivity.
  - rewrite Hk at 1. rewrite <- app_assoc, TrimLeft_app_repeat.
    rewrite TrimLeft_id by exact Hhd.
    change ((c :: t) ++ repeat slash b) with ((c :: t) ++ repeat slash b).
    apply TrimRight_app_repeat.
Qed.

(** X14.  [match] does not see separators around the requested path: any
    number of them before and after it give the same result, on every
    table. *)
Theorem match_ignores_outer_slashes ds root itemPath a b w :
  DirPatterns.match_ ds root (repeat slash a ++ itemPath ++ repeat slash b) w
  = DirPatterns.match_ ds root itemPath w.
Proof.
  unfold DirPatterns.match_, DirPatterns.absPathOf.
  now rewrite Trim_outer_slashes.
Qed.

Section NoPanic.

Variables apiContainer apiPhoto Reader : Type.
Variable containerType : dirPattern -> ContainerType.
Variable f : Fs apiContainer apiPhoto Reader.

(** X15.  On a normal root and a requested path without parent step, [List],
    [Mkdir], [Rmdir] and [NewObject] panic only when the listing functions
    or the client do. *)
Theorem operations_do_not_panic dir :
  normalRoot (root f) -> noParentStep (Strings.Trim dir) = true ->
  (forall prefix t, fsListContainers f prefix t <> Panic) ->
  (forall prefix t d, fsListPhotos f prefix t d <> Panic) ->
  (forall t n, ContainerWithUniqueName (nixplayClient f) t n <> Panic) ->
  (forall t n, CreateContainer (nixplayClient f) t n <> Panic) ->
  (forall c n, PhotoWithUniqueName (nixplayClient f) c n <> Panic) ->
  (forall c, Delete (nixplayClient f) c <> Panic) ->
  List f dir <> Panic
  /\ Mkdir containerType f dir <> Panic
  /\ Rmdir containerType f dir <> Panic
  /\ NewObject containerType f dir <> Panic.
Proof.
  intros Hn Hp HlC HlP Hcw Hcc Hpw Hdel.
  pose proof (forward_in_range dir Hn Hp) as Hlen.
  unfold List, Mkdir, Rmdir, NewObject.
  rewrite !match_in_range by exact Hlen. rewrite !matchLoop_is_route.
  set (absPath := DirPatterns.absPathOf (root f) dir).
  assert (Hdir :
    match route false absPath with
    | Some (i, m) =>
        exists p, nth_error patterns i = Some p /\ isFile p = false
          /\ ((canMkdir p = false
               /\ exists produce, toEntries p = Some produce
                    /\ forall prefix, produce (asLister f) prefix m <> Panic)
              \/ (canMkdir p = true
                  /\ exists t name, m = [absPath; name]
                       /\ toEntries p
                          = Some (fun l prefix m => index m 1 (listPhotos l prefix t))))
    | None => True
    end).
  { destruct (route false absPath) as [[i m]|] eqn:R; [|exact I].
    apply route_sound in R. remember false as w eqn:Ew.
    destruct R as [|t|t name Hne Hnl|]; try discriminate Ew.
    - eexists. split; [reflexivity|]. split; [reflexivity|]. left.
      split; [reflexivity|]. eexists. split; [reflexivity|]. discriminate.
    - destruct (kind_root_rule t) as (p & Hq & Hfile & _ & Hmk & Hte).
      exists p. repeat split; auto. left. split; [exact Hmk|].
      eexists. split; [exact Hte|]. intros prefix. apply HlC.
    - destruct (collection_rule t) as (p & Hq & _ & Hfile & _ & Hmk & Hte).
      exists p. repeat split; auto. right. split; [exact Hmk|].
      now exists t, name. }
  assert (Hfile :
    match route true absPath with
    | Some (i, m) =>
        exists p mid last, nth_error patterns i = Some p /\ m = [absPath; mid; last]
    | None => True
    end).
  { destruct (route true absPath) as [[i m]|] eqn:R; [|exact I].
    apply route_sound in R. remember true as w eqn:Ew.
    destruct R as [| | |t mid last Hmid Hnl Hlast Hns]; try discriminate Ew.
    destruct (item_rule t) as (p & Hq & _). now exists p, mid, last. }
  destruct (route false absPath) as [[i m]|].
  - destruct Hdir as (p & -> & Hfl & [(Hmk & produce & Hte & Hprod)
                                    |(Hmk & t & name & -> & Hte)]);
      rewrite Hfl, Hmk, Hte; cbn [negb index nth_error].
    + repeat split; try discriminate; [apply Hprod|].
      destruct (route true absPath) as [[j mf]|]; [|discriminate].
      destruct Hfile as (q & mid & last & -> & ->). cbn [index nth_error].
      specialize (Hcw (containerType q) mid).
      destruct (ContainerWithUniqueName _ _ _) as [[c|]| |];
        [|discriminate..|contradiction].
      specialize (Hpw c last).
      destruct (PhotoWithUniqueName _ _ _) as [[ph|]| |];
        [discriminate..|contradiction].
    + cbn [asLister listPhotos]. repeat split.
      * apply HlP.
      * specialize (Hcc (containerType p) name).
        destruct (CreateContainer _ _ _); [discriminate..|contradiction].
      * specialize (Hcw (containerType p) name).
        destruct (ContainerWithUniqueName _ _ _) as [[c|]| |];
          [apply Hdel|discriminate..|contradiction].
      * destruct (route true absPath) as [[j mf]|]; [|discriminate].
        destruct Hfile as (q & mid & last & -> & ->). cbn [index nth_error].
        specialize (Hcw (containerType q) mid).
        destruct (ContainerWithUniqueName _ _ _) as [[c|]| |];
          [|discriminate..|contradiction].
        specialize (Hpw c last).
        destruct (PhotoWithUniqueName _ _ _) as [[ph|]| |];
          [discriminate..|contradiction].
  - repeat split; try discriminate.
    destruct (route true absPath) as [[j mf]|]; [|discriminate].
    destruct Hfile as (q & mid & last & -> & ->). cbn [index nth_error].
    specialize (Hcw (containerType q) mid).
    destruct (ContainerWithUniqueName _ _ _) as [[c|]| |];
      [|discriminate..|contradiction].
    specialize (Hpw c last).
    destruct (PhotoWithUniqueName _ _ _) as [[ph|]| |];
      [discriminate..|contradiction].
Qed.

End NoPanic.

Lemma operations_do_not_panic_witness :
  List (probeFs s["album"]) s["Vacation/./x"] <> Panic
  /\ Mkdir kindOfRule (probeFs s["album"]) s["Vacation/./x"] <> Panic
  /\ Rmdir kindOfRule (probeFs s["album"]) s["Vacation/./x"] <> Panic
  /\ NewObject kindOfRule (probeFs s["album"]) s["Vacation/./x"] <> Panic.
Proof.
  apply operations_do_not_panic; try discriminate; try reflexivity.
  exists [s["album"]]. split; reflexivity.
Defined.

Lemma hexDigit_lower n : n < 16 -> isLowerHex (hexDigit n) = true.
Proof.
  intros H. do 16 (destruct n as [|n]; [reflexivity|]). lia.
Qed.

Lemma hexDigit_inj i j : i < 16 -> j < 16 -> hexDigit i = hexDigit j -> i = j.
Proof.
  intros Hi Hj.
  do 16 (destruct i as [|i];
         [do 16 (destruct j as [|j]; [first [reflexivity|discriminate]|]); lia|]).
  lia.
Qed.

Lemma byte_split b :
  nat_of_ascii b / 16 < 16 /\ nat_of_ascii b mod 16 < 16.
Proof.
  pose proof (nat_ascii_bounded b) as H. split.
  - apply Nat.Div0.div_lt_upper_bound. lia.
  - apply Nat.mod_upper_bound. lia.
Qed.

Lemma hexEncode_inj a b : hexEncode a = hexEncode b -> a = b.
Proof.
  revert b. induction a as [|x a IH]; intros [|y b];
    cbn [hexEncode flat_map app]; try discriminate; auto.
  intros [= Hhi Hlo Hrest]. f_equal; [|now apply IH].
  destruct (byte_split x) as [Hx1 Hx2]. destruct (byte_split y) as [Hy1 Hy2].
  assert (H1 : nat_of_ascii x / 16 = nat_of_ascii y / 16)
    by (apply hexDigit_inj; [assumption..|exact Hhi]).
  assert (H2 : nat_of_ascii x mod 16 = nat_of_ascii y mod 16)
    by (apply hexDigit_inj; [assumption..|exact Hlo]).
  rewrite <- (ascii_nat_embedding x), <- (ascii_nat_embedding y). f_equal.
  rewrite (Nat.div_mod_eq (nat_of_ascii x) 16), (Nat.div_mod_eq (nat_of_ascii y) 16).
  now rewrite H1, H2.
Qed.

Section PhotoHashFacts.

Variables apiContainer apiPhoto : Type.
Variable MD5Hash : apiPhoto -> result (list ascii).

(** X16.  [Hash] answers for MD5 only, and without asking the service for any
    other type; for MD5 it gives two lower-case hexadecimal digits for every
    byte of the digest, and different digests give different strings. *)
Theorem Hash_is_hex_of_md5 (o : Photo apiContainer apiPhoto) t :
  (t <> MD5 -> PhotoHash MD5Hash o t = HashUnsupported)
  /\ (forall sum, MD5Hash (photo o) = Ok sum ->
        exists text,
          PhotoHash MD5Hash o MD5 = HashOk text
          /\ length text = 2 * length sum
          /\ forallb isLowerHex text = true
          /\ forall sum', hexEncode sum' = text -> sum' = sum).
Proof.
  split.
  - destruct t; [contradiction|reflexivity].
  - intros sum Hsum. exists (hexEncode sum). unfold PhotoHash. rewrite Hsum.
    split; [reflexivity|]. split; [|split].
    + clear Hsum. induction sum as [|b sum IH]; [reflexivity|].
      cbn [hexEncode flat_map app length]. fold (hexEncode sum). rewrite IH. lia.
    + clear Hsum. induction sum as [|b sum IH]; [reflexivity|].
      cbn [hexEncode flat_map app forallb]. fold (hexEncode sum).
      destruct (byte_split b) as [H1 H2].
      now rewrite !hexDigit_lower, IH.
    + intros sum'. apply hexEncode_inj.
Qed.

End PhotoHashFacts.

Lemma Hash_is_hex_of_md5_witness :
  exists text,
    PhotoHash (fun ph : str => Ok ph) probePhoto MD5 = HashOk text
    /\ length text = 16.
Proof.
  destruct (@Hash_is_hex_of_md5 _ _ (fun ph : str => Ok ph) probePhoto MD5)
    as [_ H].
  destruct (H s["img1.jpg"] eq_refl) as (text & Ht & Hlen & _).
  exists text. split; [exact Ht|exact Hlen].
Defined.
